(** * Verification of [vmruntime/cloud_logging.py]

    A shallow embedding of [CloudLoggingHandler] (the JSON formatter, the
    trace-id resolution and the rotating file sink it inherits) together
    with the properties stated about it.

    Conventions of the embedding:
    - a Python [float] is an IEEE-754 binary64 number, represented by
      [spec_float] of the Standard Library with [prec = 53], [emax = 1024];
    - a Python [int] is a [Z];
    - Python text is a list of Unicode code points ([list N]);
    - a raised exception is the [Raise] branch of [result];
    - the file system is a finite map from paths to file contents. *)

From Stdlib Require Import ZArith List String Ascii Bool Lia QArith Qround Qabs.
From Stdlib Require Import Floats.SpecFloat DecimalString DecimalPos DecimalZ.
From stdpp Require Import base option list gmap strings.
Import ListNotations.

Local Open Scope Z_scope.

(** ** Exceptions *)

Inductive exn : Type :=
| TypeError
| ValueError
| OverflowError.

Inductive result (A : Type) : Type :=
| Ok (a : A)
| Raise (e : exn).
Arguments Ok {A} a.
Arguments Raise {A} e.

#[global] Instance result_ret : MRet result := @Ok.

#[global] Instance result_bind : MBind result := fun A B k r =>
  match r with
  | Ok a => k a
  | Raise e => Raise e
  end.

(** ** Binary64 floating point *)

Module Float.

Definition prec : Z := 53.
Definition emax : Z := 1024.

(** Sign applied to a magnitude. *)
Definition signed (s : bool) (z : Z) : Z := if s then - z else z.

(** [value x] is the real number a finite float denotes. *)
Definition value (x : spec_float) : Q :=
  match x with
  | S754_finite s m e =>
      if 0 <=? e then inject_Z (signed s (Zpos m * 2 ^ e))
      else Qmake (signed s (Zpos m)) (Z.to_pos (2 ^ (- e)))
  | _ => 0%Q
  end.

Definition is_finite (x : spec_float) : bool :=
  match x with
  | S754_zero _ | S754_finite _ _ _ => true
  | _ => false
  end.

Definition valid (x : spec_float) : bool := valid_binary prec emax x.

(** Sign bit of a float that is not a NaN. *)
Definition sign (x : spec_float) : bool :=
  match x with
  | S754_zero s | S754_infinity s | S754_finite s _ _ => s
  | S754_nan => false
  end.

(** The float with sign [s] and value [m * 2^e], for an integer [m >= 0]
    that needs no rounding. *)
Definition of_parts (s : bool) (m : Z) (e : Z) : spec_float :=
  match m with
  | Zpos p => binary_round prec emax s p e
  | _ => S754_zero s
  end.

(** [math.modf(x)]: the fractional and the integer part of [x], both
    carrying the sign of [x]. *)
Definition modf (x : spec_float) : spec_float * spec_float :=
  match x with
  | S754_nan => (S754_nan, S754_nan)
  | S754_infinity s => (S754_zero s, S754_infinity s)
  | S754_zero s => (S754_zero s, S754_zero s)
  | S754_finite s m e =>
      if 0 <=? e then (S754_zero s, x)
      else (of_parts s (Zpos m mod 2 ^ (- e)) e,
            of_parts s (Zpos m / 2 ^ (- e)) 0)
  end.

(** Reference rounding of [M / 2^n] to the nearest integer, ties to even
    ([n <= 0] means that nothing has to be dropped). *)
Definition round_shift (M n : Z) : Z :=
  if n <=? 0 then M
  else
    let q := M / 2 ^ n in
    match 2 * (M mod 2 ^ n) ?= 2 ^ n with
    | Lt => q
    | Eq => if Z.even q then q else q + 1
    | Gt => q + 1
    end.

(** [x * y] on floats. *)
Definition mul (x y : spec_float) : spec_float := SFmul prec emax x y.

(** The literal [1e9]. *)
Definition f1e9 : spec_float := S754_finite false 8388608000000000 (-23).

(** [int(x)] for a float [x]: truncation toward zero. *)
Definition to_int (x : spec_float) : result Z :=
  match x with
  | S754_nan => Raise ValueError
  | S754_infinity _ => Raise OverflowError
  | S754_zero _ => Ok 0
  | S754_finite s m e =>
      if 0 <=? e then Ok (signed s (Zpos m * 2 ^ e))
      else Ok (signed s (Zpos m / 2 ^ (- e)))
  end.

(** Truncation of a rational number toward zero. *)
Definition Qtrunc (q : Q) : Z := Z.quot (Qnum q) (Zpos (Qden q)).

(** The exact (unrounded) product of the signed fractional part of [x]
    and [10^9]. *)
Definition exact_nanos (x : spec_float) : Q :=
  ((value x - inject_Z (Qtrunc (value x))) * inject_Z (10 ^ 9))%Q.

End Float.

(** The [timestamp] entry of the payload, as [format] computes it:
    [subsecond, second = math.modf(record.created)], then
    [int(second)] and [int(subsecond * 1e9)]. *)
Definition timestamp_of (created : spec_float) : result (Z * Z) :=
  let '(subsecond, second) := Float.modf created in
  seconds ← Float.to_int second;
  nanos ← Float.to_int (Float.mul subsecond Float.f1e9);
  Ok (seconds, nanos).





(** ** Python values *)

(** Text (a Python string) is a sequence of Unicode code points. *)
Abbreviation text := (list N).

(** Byte strings, and string literals as bytes or as text. *)
Abbreviation bytes := (list ascii).

Definition lit (s : string) : bytes := list_ascii_of_string s.

Definition u (s : string) : text := map N_of_ascii (list_ascii_of_string s).

(** The values an attribute of a log record can hold.  [PyObject] stands
    for every object the [json] module has no encoding for (a set, a
    [uuid.UUID], an instance of a user class, ...); [truth] is its truth
    value. *)
#[local] Unset Elimination Schemes.
Inductive pyval : Type :=
| PyNone
| PyBool (b : bool)
| PyInt (z : Z)
| PyStr (s : text)
| PyList (l : list pyval)
| PyDict (d : list (text * pyval))
| PyObject (repr : string) (truth : bool).
#[local] Set Elimination Schemes.

(** Truth value testing ([if x:], [not x]). *)
Definition truthy (v : pyval) : bool :=
  match v with
  | PyNone => false
  | PyBool b => b
  | PyInt z => negb (z =? 0)
  | PyStr s => negb (bool_decide (s = []))
  | PyList l => match l with [] => false | _ => true end
  | PyDict d => match d with [] => false | _ => true end
  | PyObject _ t => t
  end.

(** [s.split(sep)] for a one-character separator. *)
Fixpoint split (sep : N) (s : text) : list text :=
  match s with
  | [] => [[]]
  | c :: s' =>
      if (c =? sep)%N then [] :: split sep s'
      else
        match split sep s' with
        | h :: t => (c :: h) :: t
        | [] => [[c]]
        end
  end.

(** [d[k] = v] on a dictionary kept in insertion order. *)
Fixpoint setitem (d : list (text * pyval)) (k : text) (v : pyval)
  : list (text * pyval) :=
  match d with
  | [] => [(k, v)]
  | (k', v') :: d' =>
      if bool_decide (k' = k) then (k, v) :: d' else (k', v') :: setitem d' k v
  end.

(** [d[k]], when the key is there. *)
Fixpoint getitem (d : list (text * pyval)) (k : text) : option pyval :=
  match d with
  | [] => None
  | (k', v') :: d' => if bool_decide (k' = k) then Some v' else getitem d' k
  end.

(** [str(z)], also what [%d] and [{}] print for an integer. *)
Definition str (z : Z) : string := NilZero.string_of_int (Z.to_int z).

(** ** [json.dumps] *)

Module Json.

Definition dquote : ascii := ascii_of_N 34.
Definition backslash : ascii := ascii_of_N 92.

Definition hex_digit (n : N) : ascii :=
  ascii_of_N (if (n <? 10)%N then 48 + n else 87 + n).

(** Four lower-case hexadecimal digits, as ['{0:04x}'.format(n)] prints
    a number below [0x10000]. *)
Definition hex4 (n : N) : bytes :=
  [hex_digit (n / 4096 mod 16); hex_digit (n / 256 mod 16);
   hex_digit (n / 16 mod 16); hex_digit (n mod 16)]%N.

(** The replacement of one character by [encode_basestring_ascii]:
    the short escapes, the printable ASCII characters as they are, and
    [\uXXXX] for everything else, a surrogate pair above the BMP. *)
Definition escape (c : N) : bytes :=
  if (c =? 34)%N then [backslash; dquote]
  else if (c =? 92)%N then [backslash; backslash]
  else if (c =? 10)%N then lit "\n"
  else if (c =? 13)%N then lit "\r"
  else if (c =? 9)%N then lit "\t"
  else if (c =? 12)%N then lit "\f"
  else if (c =? 8)%N then lit "\b"
  else if ((32 <=? c) && (c <=? 126))%N then [ascii_of_N c]
  else if (c <? 65536)%N then lit "\u" ++ hex4 c
  else
    let n := (c - 65536)%N in
    let s1 := N.lor 55296 (N.land (N.shiftr n 10) 1023) in
    let s2 := N.lor 56320 (N.land n 1023) in
    lit "\u" ++ hex4 s1 ++ lit "\u" ++ hex4 s2.

Definition encode_string (s : text) : bytes :=
  dquote :: flat_map escape s ++ [dquote].

Definition encode_int (z : Z) : bytes := list_ascii_of_string (str z).

(** [sep.join(items)]. *)
Fixpoint join (sep : bytes) (items : list bytes) : bytes :=
  match items with
  | [] => []
  | [x] => x
  | x :: rest => x ++ sep ++ join sep rest
  end.

(** [json.dumps(v)] with the default arguments: [ensure_ascii=True],
    separators [", "] and [": "], no [default=] hook, so that an object
    without an encoding raises [TypeError]. *)
Fixpoint dumps (v : pyval) : result bytes :=
  match v with
  | PyNone => Ok (lit "null")
  | PyBool true => Ok (lit "true")
  | PyBool false => Ok (lit "false")
  | PyInt z => Ok (encode_int z)
  | PyStr s => Ok (encode_string s)
  | PyList l =>
      items ← (fix each (l : list pyval) : result (list bytes) :=
                 match l with
                 | [] => Ok []
                 | x :: l' => a ← dumps x; b ← each l'; Ok (a :: b)
                 end) l;
      Ok (lit "[" ++ join (lit ", ") items ++ lit "]")
  | PyDict d =>
      items ← (fix each (d : list (text * pyval)) : result (list bytes) :=
                 match d with
                 | [] => Ok []
                 | (k, x) :: d' =>
                     a ← dumps x; b ← each d';
                     Ok ((encode_string k ++ lit ": " ++ a) :: b)
                 end) d;
      Ok (lit "{" ++ join (lit ", ") items ++ lit "}")
  | PyObject _ _ => Raise TypeError
  end.

(** The encodings of the elements of a list and of the members of a
    dictionary, as [dumps] computes them. *)
Fixpoint dumps_items (l : list pyval) : result (list bytes) :=
  match l with
  | [] => Ok []
  | x :: l' => a ← dumps x; b ← dumps_items l'; Ok (a :: b)
  end.

Fixpoint dumps_members (d : list (text * pyval)) : result (list bytes) :=
  match d with
  | [] => Ok []
  | (k, x) :: d' =>
      a ← dumps x; b ← dumps_members d';
      Ok ((encode_string k ++ lit ": " ++ a) :: b)
  end.

End Json.

(** ** The log record and [CloudLoggingHandler.format] *)

(** The attributes of a [logging.LogRecord] that [format] reads.
    [message] is the string the inherited [format] returns for the
    record; [trace_id] is [None] when the record has no such attribute. *)
Record LogRecord : Type := {
  message : text;
  created : spec_float;
  thread : pyval;
  levelname : pyval;
  trace_id : option pyval
}.

(** The process environment. *)
Abbreviation environ := (gmap string text).

Definition getenv (env : environ) (name : string) (dflt : text) : text :=
  default dflt (env !! name).

Definition HTTP_X_CLOUD_TRACE_CONTEXT : string := "HTTP_X_CLOUD_TRACE_CONTEXT".

Definition slash : N := 47.

(** The trace id [format] settles on: the [trace_id] attribute when it is
    truthy, otherwise the part of the header before the first [/]. *)
Definition resolve_trace_id (record : LogRecord) (env : environ) : pyval :=
  let trace_id := default PyNone (trace_id record) in
  if negb (truthy trace_id)
  then PyStr (hd [] (split slash (getenv env HTTP_X_CLOUD_TRACE_CONTEXT [])))
  else trace_id.

Definition timestamp_dict (seconds nanos : Z) : pyval :=
  PyDict [(u "seconds", PyInt seconds); (u "nanos", PyInt nanos)].

(** The dictionary [format] assembles. *)
Definition payload_of (record : LogRecord) (env : environ)
  : result (list (text * pyval)) :=
  '(seconds, nanos) ← timestamp_of (created record);
  let payload :=
    [(u "message", PyStr (message record));
     (u "timestamp", timestamp_dict seconds nanos);
     (u "thread", thread record);
     (u "severity", levelname record)] in
  let trace_id := resolve_trace_id record env in
  Ok (if truthy trace_id then setitem payload (u "traceId") trace_id
      else payload).

Definition format (record : LogRecord) (env : environ) : result bytes :=
  payload ← payload_of record env;
  Json.dumps (PyDict payload).

(** ** Auxiliary notions used in the statements *)

(** Structural induction on values, through lists and dictionaries. *)
Section pyval_induction.
Variable P : pyval -> Prop.
Hypothesis HNone : P PyNone.
Hypothesis HBool : forall b, P (PyBool b).
Hypothesis HInt : forall z, P (PyInt z).
Hypothesis HStr : forall s, P (PyStr s).
Hypothesis HList : forall l, Forall P l -> P (PyList l).
Hypothesis HDict : forall d, Forall (fun kv => P (snd kv)) d -> P (PyDict d).
Hypothesis HObject : forall r t, P (PyObject r t).

Fixpoint pyval_ind (v : pyval) : P v :=
  match v with
  | PyNone => HNone
  | PyBool b => HBool b
  | PyInt z => HInt z
  | PyStr s => HStr s
  | PyList l =>
      HList l ((fix all (l : list pyval) : Forall P l :=
                  match l with
                  | [] => @List.Forall_nil _ P
                  | x :: l' => @List.Forall_cons _ P x l' (pyval_ind x) (all l')
                  end) l)
  | PyDict d =>
      HDict d ((fix all (d : list (text * pyval))
                  : Forall (fun kv => P (snd kv)) d :=
                  match d with
                  | [] => @List.Forall_nil _ _
                  | (k, x) :: d' =>
                      @List.Forall_cons _ (fun kv => P (snd kv)) (k, x) d'
                                        (pyval_ind x) (all d')
                  end) d)
  | PyObject r t => HObject r t
  end.
End pyval_induction.

(** A value [json.dumps] has an encoding for: no [PyObject] inside. *)
Fixpoint serializable (v : pyval) : bool :=
  match v with
  | PyList l => forallb serializable l
  | PyDict d =>
      (fix all (d : list (text * pyval)) : bool :=
         match d with
         | [] => true
         | (_, x) :: d' => serializable x && all d'
         end) d
  | PyObject _ _ => false
  | _ => true
  end.

(** The part of a string before the first occurrence of [sep]. *)
Fixpoint before (sep : N) (s : text) : text :=
  match s with
  | [] => []
  | c :: s' => if (c =? sep)%N then [] else c :: before sep s'
  end.

(** The keys of a dictionary, in order. *)
Definition keys (d : list (text * pyval)) : list text := map fst d.


(** The decimal digits. *)
Definition is_digit (c : ascii) : Prop := (48 <= N_of_ascii c <= 57)%N.

(** ** The rotating file handler *)

Definition LOG_PATH_TEMPLATE (pid : Z) : string :=
  "/var/log/app_engine/app." +:+ str pid +:+ ".json".
Definition MAX_LOG_BYTES : Z := 128 * 1024 * 1024.
Definition LOG_FILE_COUNT : Z := 3.

(** The attributes of a [logging.handlers.RotatingFileHandler].  Its
    stream is always open on [baseFilename] (the handler is created
    without [delay]), so it is not represented. *)
Record RotatingFileHandler : Type := {
  baseFilename : string;
  maxBytes : Z;
  backupCount : Z
}.

(** The files of the log directory and their contents. *)
Abbreviation filesystem := (gmap string bytes).

Module Fs.

Definition exists_ (fs : filesystem) (path : string) : bool :=
  bool_decide (is_Some (fs !! path)).

Definition remove (fs : filesystem) (path : string) : filesystem :=
  delete path fs.

(** [os.rename(src, dst)] of an existing file. *)
Definition rename (fs : filesystem) (src dst : string) : filesystem :=
  match fs !! src with
  | Some c => <[dst := c]> (delete src fs)
  | None => fs
  end.

(** [open(path, 'a')]: the file is created empty when it is not there. *)
Definition open_append (fs : filesystem) (path : string) : filesystem :=
  match fs !! path with
  | Some _ => fs
  | None => <[path := []]> fs
  end.

(** A write through a stream opened for appending. *)
Definition write (fs : filesystem) (path : string) (data : bytes) : filesystem :=
  <[path := default [] (fs !! path) ++ data]> fs.

(** [stream.seek(0, 2); stream.tell()]. *)
Definition size (fs : filesystem) (path : string) : Z :=
  Z.of_nat (length (default [] (fs !! path))).

End Fs.

Definition newline : ascii := ascii_of_N 10.

(** [CloudLoggingHandler.__init__]: the handler of the process [pid],
    and the file system after its log file has been opened. *)
Definition CloudLoggingHandler (pid : Z) : RotatingFileHandler :=
  {| baseFilename := LOG_PATH_TEMPLATE pid;
     maxBytes := MAX_LOG_BYTES;
     backupCount := LOG_FILE_COUNT |}.

Definition init (pid : Z) (fs : filesystem) : RotatingFileHandler * filesystem :=
  (CloudLoggingHandler pid, Fs.open_append fs (LOG_PATH_TEMPLATE pid)).

(** ["%s.%d" % (self.baseFilename, i)]. *)
Definition backup (h : RotatingFileHandler) (i : Z) : string :=
  baseFilename h +:+ "." +:+ str i.

(** [range(n, 0, -1)]. *)
Fixpoint countdown (n : nat) : list Z :=
  match n with
  | O => []
  | S k => Z.of_nat (S k) :: countdown k
  end.

(** One turn of the loop of [doRollover]: backup [i] becomes backup
    [i + 1]. *)
Definition shift (h : RotatingFileHandler) (fs : filesystem) (i : Z) : filesystem :=
  let sfn := backup h i in
  let dfn := backup h (i + 1) in
  if Fs.exists_ fs sfn
  then Fs.rename (if Fs.exists_ fs dfn then Fs.remove fs dfn else fs) sfn dfn
  else fs.

Definition doRollover (h : RotatingFileHandler) (fs : filesystem) : filesystem :=
  let fs1 :=
    if 0 <? backupCount h then
      let fs2 := foldl (shift h) fs (countdown (Z.to_nat (backupCount h - 1))) in
      let dfn := baseFilename h +:+ ".1" in
      let fs3 := if Fs.exists_ fs2 dfn then Fs.remove fs2 dfn else fs2 in
      if Fs.exists_ fs3 (baseFilename h)
      then Fs.rename fs3 (baseFilename h) dfn
      else fs3
    else fs in
  Fs.open_append fs1 (baseFilename h).

(** [shouldRollover], for the formatted line [line] of the record. *)
Definition shouldRollover (h : RotatingFileHandler) (fs : filesystem)
    (line : bytes) : bool :=
  (0 <? maxBytes h) &&
  (maxBytes h <=? Fs.size fs (baseFilename h)
                  + Z.of_nat (length (line ++ [newline]))).

(** [emit] once the record is formatted: roll over if needed, then
    write the line and its terminator. *)
Definition emit_line (h : RotatingFileHandler) (fs : filesystem)
    (line : bytes) : filesystem :=
  let fs1 := if shouldRollover h fs line then doRollover h fs else fs in
  Fs.write fs1 (baseFilename h) (line ++ [newline]).

(** [emit]: a record whose formatting raises is handed to [handleError]
    and nothing is written. *)
Definition emit (h : RotatingFileHandler) (env : environ) (fs : filesystem)
    (record : LogRecord) : filesystem :=
  match format record env with
  | Ok line => emit_line h fs line
  | Raise _ => fs
  end.

(** A sequence of writes. *)
Definition emit_lines (h : RotatingFileHandler) (fs : filesystem)
    (lines : list bytes) : filesystem :=
  foldl (emit_line h) fs lines.

(** The contents of the active file at each rollover of a sequence of
    writes, the most recent first. *)
Fixpoint closed_files (h : RotatingFileHandler) (fs : filesystem)
    (lines : list bytes) (closed : list bytes) : list bytes :=
  match lines with
  | [] => closed
  | line :: rest =>
      closed_files h (emit_line h fs line) rest
        (if shouldRollover h fs line
         then default [] (fs !! baseFilename h) :: closed
         else closed)
  end.

(** The files a handler reads or writes. *)
Definition files_of (h : RotatingFileHandler) : list string :=
  baseFilename h :: map (backup h) (countdown (Z.to_nat (backupCount h))).

(** The state kept true by every write: the active file exists, backup
    [i + 1] holds the [i]-th most recent closed file, and there is no
    backup beyond the third. *)
Definition rotation_inv (h : RotatingFileHandler) (fs : filesystem)
    (closed : list bytes) : Prop :=
  is_Some (fs !! baseFilename h) /\
  (forall i, 3 < i -> fs !! backup h i = None) /\
  (forall i : nat, (i < 3)%nat -> (i < length closed)%nat ->
                   fs !! backup h (Z.of_nat i + 1) = closed !! i).

(** A handler with a small size limit, and a log directory that holds
    its active file. *)
Definition small_handler : RotatingFileHandler :=
  {| baseFilename := "app.7.json"; maxBytes := 8; backupCount := 3 |}.

Definition small_fs : filesystem := {[ "app.7.json" := lit "12345" ]}.

(** ** What a sequence of writes leaves behind *)

(** The bytes [emit] writes for a sequence of formatted lines. *)
Definition written (lines : list bytes) : bytes :=
  concat (map (fun line => line ++ [newline]) lines).

(** The content of a file, empty when the file is not there. *)
Definition contents (fs : filesystem) (path : string) : bytes :=
  default [] (fs !! path).

(** The backups are the three most recent of the closed files. *)
Definition backups_are (h : RotatingFileHandler) (fs : filesystem)
    (closed : list bytes) : Prop :=
  forall i : nat, (i < 3)%nat -> fs !! backup h (Z.of_nat i + 1) = closed !! i.

(** ** A JSON decoder

    The decoder the round-trip property is stated against.  It reads the
    JSON grammar of RFC 8259 over ASCII texts: the literals, integers
    (a number with a fraction or an exponent is not read), strings with
    all their escapes, a [\uXXXX] pair of surrogates being one character,
    arrays and objects.  An object is returned as the list of its
    members in the order of the text. *)

Module Decoder.


















End Decoder.









(** ** Sample inputs *)

Module Samples.

(** [-1.5], [0.3], [2 ** -29] and [1700000000.25] as binary64 numbers. *)
Definition minus_one_and_a_half : spec_float :=
  S754_finite true 6755399441055744 (-52).
Definition three_tenths : spec_float :=
  S754_finite false 5404319552844595 (-54).
Definition recent : spec_float :=
  S754_finite false 7130316801048576 (-22).

Definition record_at (t : spec_float) : LogRecord :=
  {| message := u "request served";
     created := t;
     thread := PyInt 140245;
     levelname := PyStr (u "INFO");
     trace_id := None |}.

(** A record logged with [extra={'trace_id': 'f00d'}]. *)
Definition traced : LogRecord :=
  {| message := u "request served";
     created := recent;
     thread := PyInt 140245;
     levelname := PyStr (u "INFO");
     trace_id := Some (PyStr (u "f00d")) |}.


(** A record whose [thread] attribute was replaced by an object. *)
Definition with_thread_object : LogRecord :=
  {| message := u "request served";
     created := recent;
     thread := PyObject "<object object at 0x7f3c5a0b60d0>" true;
     levelname := PyStr (u "INFO");
     trace_id := None |}.


Definition with_header (h : string) : environ :=
  {[ HTTP_X_CLOUD_TRACE_CONTEXT := u h ]}.

End Samples.

(** * Facts about the binary64 model *)

Module FloatFacts.
Import Float.

Lemma digits2_size (p : positive) : digits2_pos p = Pos.size p.
Proof. induction p; simpl; congruence. Qed.

Lemma digits_upper (p : positive) : Zpos p < 2 ^ Zpos (digits2_pos p).
Proof.
  rewrite digits2_size.
  pose proof (Pos.size_gt p) as H.
  apply Pos2Z.pos_lt_pos in H. now rewrite Pos2Z.inj_pow in H.
Qed.

Lemma digits_lower (p : positive) : 2 ^ (Zpos (digits2_pos p) - 1) <= Zpos p.
Proof.
  rewrite digits2_size.
  pose proof (Pos.size_le p) as H.
  apply Pos2Z.pos_le_pos in H. rewrite Pos2Z.inj_pow in H.
  replace (Zpos (Pos.size p)) with (Z.succ (Zpos (Pos.size p) - 1)) in H by lia.
  rewrite Z.pow_succ_r in H by lia.
  change (Zpos p~0) with (2 * Zpos p) in H. lia.
Qed.

(** A number below [2^n] has at most [n] binary digits. *)
Lemma digits_le (p : positive) (n : Z) :
  0 <= n -> Zpos p < 2 ^ n -> Zpos (digits2_pos p) <= n.
Proof.
  intros Hn Hp. pose proof (digits_lower p) as Hl.
  destruct (Z_le_gt_dec (Zpos (digits2_pos p)) n) as [|Hgt]; [assumption|exfalso].
  assert (2 ^ n <= 2 ^ (Zpos (digits2_pos p) - 1)) by (apply Z.pow_le_mono_r; lia).
  lia.
Qed.

Lemma iter_pos_iter {A : Type} (f : A -> A) (p : positive) (x : A) :
  SpecFloat.iter_pos f p x = Pos.iter f x p.
Proof.
  revert x. induction p as [p IH|p IH|]; intros x; simpl.
  - rewrite !IH. now rewrite <- !Pos.iter_swap.
  - now rewrite !IH.
  - reflexivity.
Qed.

Lemma shr_1_nonneg (m : Z) (r s : bool) :
  0 <= m ->
  shr_1 (Build_shr_record m r s) = Build_shr_record (m / 2) (Z.odd m) (r || s).
Proof.
  intros Hm. destruct m as [|p|p]; [reflexivity| |lia].
  destruct p as [p|p|]; simpl shr_1.
  - f_equal. change (Zpos p~1) with (2 * Zpos p + 1).
    apply Z.div_unique with (r := 1); lia.
  - f_equal. change (Zpos p~0) with (2 * Zpos p).
    apply Z.div_unique with (r := 0); lia.
  - reflexivity.
Qed.

(** After [n + 1] one-bit shifts of an exactly known [M] the record holds
    the quotient, the last bit shifted out and whether anything below it
    was non-zero. *)
Lemma shr_iter (M : Z) (n : nat) :
  0 <= M ->
  Nat.iter (S n) shr_1 (Build_shr_record M false false) =
  Build_shr_record (M / 2 ^ Z.of_nat (S n)) (Z.testbit M (Z.of_nat n))
                   (negb (M mod 2 ^ Z.of_nat n =? 0)).
Proof.
  intros HM. induction n as [|n IH].
  - unfold Nat.iter; cbn [nat_rect]. rewrite shr_1_nonneg by assumption.
    change (Z.of_nat 1) with 1. change (Z.of_nat 0) with 0.
    rewrite Z.pow_1_r, Z.pow_0_r, Z.mod_1_r, Z.bit0_odd. reflexivity.
  - rewrite Nat.iter_succ, IH. rewrite shr_1_nonneg by (apply Z.div_pos; lia).
    f_equal.
    + rewrite Z.div_div by lia. f_equal.
      rewrite (Nat2Z.inj_succ (S n)), Z.pow_succ_r by lia. lia.
    + rewrite Z.testbit_odd, Z.shiftr_div_pow2 by lia. reflexivity.
    + rewrite (Nat2Z.inj_succ n), Z.pow_succ_r by lia.
      assert (Hp : 0 < 2 ^ Z.of_nat n) by (apply Z.pow_pos_nonneg; lia).
      rewrite (Z.mul_comm 2), Z.rem_mul_r by lia.
      pose proof (Z.mod_pos_bound M (2 ^ Z.of_nat n) Hp).
      pose proof (Z.mod_pos_bound (M / 2 ^ Z.of_nat n) 2 ltac:(lia)).
      pose proof (Z.testbit_true M (Z.of_nat n) ltac:(lia)) as Ht.
      destruct (Z.testbit M (Z.of_nat n)); cbn [orb].
      * symmetry. apply negb_true_iff, Z.eqb_neq.
        assert ((M / 2 ^ Z.of_nat n) mod 2 = 1) as -> by now apply Ht. lia.
      * assert ((M / 2 ^ Z.of_nat n) mod 2 = 0) as ->.
        { destruct (Z.eq_dec ((M / 2 ^ Z.of_nat n) mod 2) 1) as [E|E];
            [apply Ht in E; discriminate | lia]. }
        now rewrite Z.mul_0_r, Z.add_0_r.
Qed.

(** Shifting an exact mantissa by [n > 0] bits and rounding the record to
    nearest-even is [round_shift]. *)
Lemma shr_round (M e n : Z) :
  0 <= M -> 0 < n ->
  exists mrs,
    shr (shr_record_of_loc M loc_Exact) e n = (mrs, e + n) /\
    round_nearest_even (shr_m mrs) (loc_of_shr_record mrs) = round_shift M n.
Proof.
  intros HM Hn. destruct n as [|p|p]; try lia.
  unfold shr. rewrite iter_pos_iter, Pos2Nat.inj_iter.
  destruct (Pos2Nat.is_succ p) as [k Hk]. rewrite Hk.
  pose proof (shr_iter M k HM) as Hs. unfold Nat.iter in Hs.
  cbn [shr_record_of_loc]. rewrite Hs. clear Hs.
  eexists; split; [reflexivity|].
  assert (Hpk : Zpos p = Z.of_nat (S k)) by lia.
  unfold round_shift. rewrite Hpk.
  destruct (Z.leb_spec (Z.of_nat (S k)) 0) as [|_]; [lia|].
  cbn [shr_m loc_of_shr_record].
  rewrite (Nat2Z.inj_succ k), Z.pow_succ_r by lia.
  assert (Hp : 0 < 2 ^ Z.of_nat k) by (apply Z.pow_pos_nonneg; lia).
  rewrite (Z.mul_comm 2 (2 ^ Z.of_nat k)), Z.rem_mul_r by lia.
  pose proof (Z.mod_pos_bound M (2 ^ Z.of_nat k) Hp) as Hr.
  pose proof (Z.testbit_true M (Z.of_nat k) ltac:(lia)) as Ht.
  set (q := M / (2 ^ Z.of_nat k * 2)).
  destruct (Z.testbit M (Z.of_nat k)).
  - assert ((M / 2 ^ Z.of_nat k) mod 2 = 1) as -> by now apply Ht.
    destruct (Z.eqb_spec (M mod 2 ^ Z.of_nat k) 0) as [E|E]; cbn [negb].
    + rewrite E.
      replace (2 * (0 + 2 ^ Z.of_nat k * 1) ?= 2 ^ Z.of_nat k * 2) with Eq
        by (symmetry; apply Z.compare_eq_iff; lia).
      reflexivity.
    + replace (2 * (M mod 2 ^ Z.of_nat k + 2 ^ Z.of_nat k * 1)
               ?= 2 ^ Z.of_nat k * 2) with Gt
        by (symmetry; apply Z.compare_gt_iff; lia).
      reflexivity.
  - assert ((M / 2 ^ Z.of_nat k) mod 2 = 0) as ->.
    { pose proof (Z.mod_pos_bound (M / 2 ^ Z.of_nat k) 2 ltac:(lia)).
      destruct (Z.eq_dec ((M / 2 ^ Z.of_nat k) mod 2) 1) as [E|E];
        [apply Ht in E; discriminate | lia]. }
    replace (2 * (M mod 2 ^ Z.of_nat k + 2 ^ Z.of_nat k * 0)
             ?= 2 ^ Z.of_nat k * 2) with Lt
      by (symmetry; apply Z.compare_lt_iff; lia).
    destruct (Z.eqb_spec (M mod 2 ^ Z.of_nat k) 0); reflexivity.
Qed.

(** [round_shift] moves to one of the two neighbours of the exact
    quotient, and upwards only from the upper half. *)
Lemma round_shift_bounds (M n : Z) :
  0 <= M -> 0 < n ->
  (round_shift M n = M / 2 ^ n /\ 2 * (M mod 2 ^ n) <= 2 ^ n) \/
  (round_shift M n = M / 2 ^ n + 1 /\ 2 ^ n <= 2 * (M mod 2 ^ n)).
Proof.
  intros HM Hn. unfold round_shift.
  destruct (Z.leb_spec n 0); [lia|].
  destruct (Z.compare_spec (2 * (M mod 2 ^ n)) (2 ^ n)) as [E|E|E].
  - destruct (Z.even (M / 2 ^ n)); [left|right]; lia.
  - left; lia.
  - right; lia.
Qed.

Lemma fexp_max (z : Z) : fexp prec emax z = Z.max (z - 53) (-1074).
Proof. reflexivity. Qed.

Lemma Zdigits2_le (q n : Z) : 0 <= q < 2 ^ n -> 0 <= n -> 0 <= Zdigits2 q <= n.
Proof.
  intros [H0 Hq] Hn. destruct q as [|p|p]; cbn [Zdigits2]; [lia| |lia].
  split; [lia|]. now apply digits_le.
Qed.

(** The significand produced by rounding needs at most one more
    normalising shift, and then it is even. *)
Lemma round_shift_renorm (M : positive) (E : Z) :
  let s := fexp prec emax (Zpos (digits2_pos M) + E) - E in
  let q := round_shift (Zpos M) s in
  let e1 := E + Z.max 0 s in
  let s2 := fexp prec emax (Zdigits2 q + e1) - e1 in
  0 <= q /\ (s2 <= 0 \/ (s2 = 1 /\ Z.even q = true)).
Proof.
  intros s q e1 s2. subst s2.
  pose proof (digits_upper M) as Hup.
  set (dM := Zpos (digits2_pos M)) in *.
  assert (HdM : 0 < dM) by (subst dM; lia).
  rewrite fexp_max. subst e1.
  destruct (Z_lt_le_dec 0 s) as [Hs|Hs].
  - assert (Hp : 0 < 2 ^ s) by (apply Z.pow_pos_nonneg; lia).
    pose proof (Z.div_pos (Zpos M) (2 ^ s) ltac:(lia) Hp) as Hq0.
    assert (Hs_eq : E + s = Z.max (dM + E - 53) (-1074))
      by (subst s; rewrite fexp_max; lia).
    replace (Z.max 0 s) with s by lia.
    destruct (Z_le_gt_dec dM s) as [Hd|Hd].
    + assert (Zpos M / 2 ^ s = 0) as Hz.
      { apply Z.div_small. split; [lia|].
        apply Z.lt_le_trans with (2 ^ dM); [assumption|].
        apply Z.pow_le_mono_r; lia. }
      assert (Hq : q = 0 \/ q = 1)
        by (subst q; destruct (round_shift_bounds (Zpos M) s) as [[-> _]|[-> _]]; lia).
      split; [lia|]. left.
      destruct Hq as [-> | ->]; cbn [Zdigits2 digits2_pos]; lia.
    + assert (Hlt : Zpos M / 2 ^ s < 2 ^ (dM - s)).
      { apply Z.div_lt_upper_bound; [assumption|].
        rewrite <- Z.pow_add_r by lia. now replace (s + (dM - s)) with dM by lia. }
      assert (Hq : 0 <= q <= 2 ^ (dM - s))
        by (subst q; destruct (round_shift_bounds (Zpos M) s) as [[-> _]|[-> _]]; lia).
      split; [lia|].
      destruct (Z.eq_dec q (2 ^ (dM - s))) as [Heq|Hne].
      * assert (Hev : Z.even q = true).
        { rewrite Heq. replace (dM - s) with (Z.succ (dM - s - 1)) by lia.
          rewrite Z.pow_succ_r by lia. apply Z.even_mul. }
        assert (Hd1 : 0 <= Zdigits2 q <= dM - s + 1).
        { apply Zdigits2_le; [|lia]. split; [lia|]. rewrite Heq.
          apply Z.pow_lt_mono_r; lia. }
        destruct (Z_le_gt_dec (Z.max (Zdigits2 q + (E + s) - 53) (-1074) - (E + s)) 0);
          [left; assumption | right; split; [lia | assumption]].
      * left. assert (Hd1 : 0 <= Zdigits2 q <= dM - s)
          by (apply Zdigits2_le; lia).
        lia.
  - assert (q = Zpos M) as ->.
    { subst q. unfold round_shift. destruct (Z.leb_spec s 0); [reflexivity|lia]. }
    split; [lia|]. left. cbn [Zdigits2]. fold dM.
    replace (Z.max 0 s) with 0 by lia. rewrite Z.add_0_r.
    subst s. rewrite fexp_max in Hs. lia.
Qed.

(** What [binary_round_aux] returns for an exact positive product that
    cannot overflow: the rounded significand [round_shift M s] at the
    exponent [E + max 0 s], up to one normalising shift. *)
Lemma round_aux_spec (sx : bool) (M : positive) (E : Z) :
  let s := fexp prec emax (Zpos (digits2_pos M) + E) - E in
  let q := round_shift (Zpos M) s in
  let e1 := E + Z.max 0 s in
  e1 + 1 <= emax - prec ->
  (q = 0 /\
   binary_round_aux prec emax sx (Zpos M) E loc_Exact = S754_zero sx) \/
  (exists m' e',
      binary_round_aux prec emax sx (Zpos M) E loc_Exact = S754_finite sx m' e' /\
      e1 <= e' <= e1 + 1 /\ Zpos m' * 2 ^ (e' - e1) = q).
Proof.
  intros s q e1 Hov.
  destruct (round_shift_renorm M E) as [Hq0 Hs2]. fold s q e1 in Hq0, Hs2.
  assert (H1 : exists mrs,
             shr_fexp prec emax (Zpos M) E loc_Exact = (mrs, e1) /\
             round_nearest_even (shr_m mrs) (loc_of_shr_record mrs) = q).
  { unfold shr_fexp. cbn [Zdigits2]. fold s.
    destruct (Z_lt_le_dec 0 s) as [Hs|Hs].
    - destruct (shr_round (Zpos M) E s) as [mrs [Ha Hb]]; [lia|assumption|].
      exists mrs. split; [|exact Hb]. rewrite Ha. f_equal. subst e1. lia.
    - exists (Build_shr_record (Zpos M) false false). split.
      + assert (e1 = E) as -> by (subst e1; lia).
        destruct s; try lia; reflexivity.
      + subst q. unfold round_shift.
        destruct (Z.leb_spec s 0); [reflexivity|lia]. }
  destruct H1 as [mrs [Hshr Hrne]].
  unfold binary_round_aux. rewrite Hshr, Hrne.
  unfold shr_fexp. cbn [shr_record_of_loc].
  set (s2 := fexp prec emax (Zdigits2 q + e1) - e1) in *.
  destruct Hs2 as [Hs2|[Hs2 Hev]].
  - assert (Hno : shr (Build_shr_record q false false) e1 s2 =
                  (Build_shr_record q false false, e1))
      by (destruct s2; try lia; reflexivity).
    rewrite Hno. cbn [shr_m].
    destruct q as [|m|m] eqn:Eq; [left; split; reflexivity| |lia].
    right. exists m, e1.
    destruct (Z.leb_spec e1 (emax - prec)); [|lia].
    split; [reflexivity|]. split; [lia|].
    rewrite Z.sub_diag. lia.
  - rewrite Hs2. cbn [shr SpecFloat.iter_pos]. rewrite shr_1_nonneg by assumption.
    cbn [shr_m].
    assert (Hq2 : q = 2 * (q / 2)).
    { pose proof (Z.div_mod q 2 ltac:(lia)) as Hdm.
      rewrite Zmod_even, Hev in Hdm. lia. }
    destruct (q / 2) as [|m|m] eqn:Eq2; [left; split; [lia|reflexivity]| |lia].
    right. exists m, (e1 + 1).
    destruct (Z.leb_spec (e1 + 1) (emax - prec)); [|lia].
    split; [reflexivity|]. split; [lia|].
    replace (e1 + 1 - e1) with 1 by lia. lia.
Qed.

Lemma iter_xO (m d : positive) : Zpos (Pos.iter xO m d) = Zpos m * 2 ^ Zpos d.
Proof.
  induction d as [|d IH] using Pos.peano_ind.
  - simpl Pos.iter. rewrite Z.pow_1_r. lia.
  - rewrite Pos.iter_succ, Pos2Z.inj_succ, Z.pow_succ_r by lia.
    rewrite Pos2Z.inj_xO, IH. lia.
Qed.

Lemma digits_unique (p : positive) (n : Z) :
  2 ^ (n - 1) <= Zpos p < 2 ^ n -> Zpos (digits2_pos p) = n.
Proof.
  intros [Hl Hu].
  pose proof (digits_lower p) as Hl'. pose proof (digits_upper p) as Hu'.
  assert (Hn : 0 < n).
  { destruct (Z_lt_le_dec 0 n) as [|Hn]; [assumption|exfalso].
    destruct (Z.eq_dec n 0) as [->|]; [simpl in Hu; lia|].
    rewrite (Z.pow_neg_r 2 n) in Hu by lia. lia. }
  assert (n - 1 < Zpos (digits2_pos p))
    by (apply (Z.pow_lt_mono_r_iff 2); lia).
  assert (Zpos (digits2_pos p) - 1 < n)
    by (apply (Z.pow_lt_mono_r_iff 2); lia).
  lia.
Qed.

Lemma digits_shift (m : positive) (d : Z) (mz : positive) :
  0 <= d -> Zpos mz = Zpos m * 2 ^ d ->
  Zpos (digits2_pos mz) = Zpos (digits2_pos m) + d.
Proof.
  intros Hd Hmz. apply digits_unique. rewrite Hmz.
  pose proof (digits_lower m). pose proof (digits_upper m).
  assert (0 < 2 ^ d) by (apply Z.pow_pos_nonneg; lia).
  replace (Zpos (digits2_pos m) + d - 1) with (Zpos (digits2_pos m) - 1 + d) by lia.
  rewrite !Z.pow_add_r by lia. nia.
Qed.

(** [binary_round] of a number that is representable returns it, in
    canonical form. *)
Lemma binary_round_exact (s : bool) (m : positive) (e : Z) :
  let e0 := fexp prec emax (Zpos (digits2_pos m) + e) in
  e0 <= e -> e0 <= emax - prec ->
  exists mz, binary_round prec emax s m e = S754_finite s mz e0 /\
             Zpos mz = Zpos m * 2 ^ (e - e0).
Proof.
  intros e0 He Hmax.
  assert (Hal : exists mz, shl_align m e e0 = (mz, e0) /\
                           Zpos mz = Zpos m * 2 ^ (e - e0)).
  { unfold shl_align. destruct (e0 - e) as [|d|d] eqn:Ed; try lia.
    - exists m. replace (e - e0) with 0 by lia. split; [f_equal; lia|lia].
    - exists (Pos.iter xO m d). split; [reflexivity|].
      rewrite iter_xO. f_equal. f_equal. lia. }
  destruct Hal as [mz [Hal Hmz]]. exists mz. split; [|assumption].
  unfold binary_round. fold e0. rewrite Hal.
  assert (Hdig : fexp prec emax (Zdigits2 (Zpos mz) + e0) - e0 = 0).
  { cbn [Zdigits2]. rewrite (digits_shift m (e - e0) mz) by (assumption || lia).
    replace (Zpos (digits2_pos m) + (e - e0) + e0) with (Zpos (digits2_pos m) + e) by lia.
    fold e0. lia. }
  unfold binary_round_aux, shr_fexp. rewrite Hdig.
  cbn [shr shr_record_of_loc shr_m loc_of_shr_record round_nearest_even].
  rewrite Hdig. cbn [shr shr_m].
  destruct (Z.leb_spec e0 (emax - prec)); [reflexivity|lia].
Qed.

(** Validity of a finite float: canonical exponent, at most 53 digits. *)
Lemma valid_finite (s : bool) (m : positive) (e : Z) :
  valid (S754_finite s m e) = true ->
  fexp prec emax (Zpos (digits2_pos m) + e) = e /\
  e <= emax - prec /\ Zpos (digits2_pos m) <= 53 /\ Zpos m < 2 ^ 53.
Proof.
  unfold valid, valid_binary, bounded, canonical_mantissa.
  intros H. apply andb_true_iff in H. destruct H as [Hc Hb].
  apply Z.eqb_eq in Hc. apply Z.leb_le in Hb.
  assert (Hd : Zpos (digits2_pos m) <= 53) by (rewrite fexp_max in Hc; lia).
  repeat split; try assumption.
  apply Z.lt_le_trans with (2 ^ Zpos (digits2_pos m)); [apply digits_upper|].
  apply Z.pow_le_mono_r; lia.
Qed.

Lemma signed_0 (s : bool) : signed s 0 = 0.
Proof. now destruct s. Qed.

(** [of_parts] of an integer below [2^53] and [int()] of it. *)
Lemma to_int_of_parts_int (s : bool) (z : Z) :
  0 <= z < 2 ^ 53 -> to_int (of_parts s z 0) = Ok (signed s z).
Proof.
  intros [H0 Hz]. destruct z as [|p|p]; [now rewrite signed_0| |lia].
  cbn [of_parts].
  assert (Hd : Zpos (digits2_pos p) <= 53) by (apply digits_le; lia).
  destruct (binary_round_exact s p 0) as [mz [-> Hmz]];
    try (rewrite fexp_max; unfold emax, prec; lia).
  set (e0 := fexp prec emax (Zpos (digits2_pos p) + 0)) in *.
  assert (He0 : e0 <= 0) by (subst e0; rewrite fexp_max; lia).
  clearbody e0. cbn [to_int]. rewrite Hmz.
  destruct (Z.leb_spec 0 e0).
  - assert (E0 : e0 = 0) by lia. rewrite E0. simpl (2 ^ _). f_equal. f_equal. lia.
  - replace (0 - e0) with (- e0) by lia.
    rewrite Z.div_mul by (apply Z.pow_nonzero; lia). reflexivity.
Qed.

(** [int(subsecond * 1e9)] for a fractional part [f * 2^e] in [(0, 1)]:
    the exact product [F] truncated, or the next integer when the product
    rounds up to it; in both cases below [10^9]. *)
Lemma nanos_of_fraction (s : bool) (f : positive) (e : Z) :
  e < 0 -> -1074 <= e -> Zpos f < 2 ^ (- e) -> Zpos f < 2 ^ 53 ->
  let F := Zpos f * 10 ^ 9 / 2 ^ (- e) in
  exists n,
    to_int (mul (binary_round prec emax s f e) f1e9) = Ok (signed s n) /\
    (n = F \/ n = F + 1) /\ 0 <= n <= 999999999 /\
    (Zpos f * 1953125 < 2 ^ 53 -> n = F).
Proof.
  intros He Hemin Hf Hf53 F.
  assert (Hdf : Zpos (digits2_pos f) <= 53) by (apply digits_le; lia).
  destruct (binary_round_exact s f e) as [m1 [Hbr Hm1]];
    try (rewrite fexp_max; unfold emax, prec; lia).
  rewrite Hbr. clear Hbr.
  set (e0 := fexp prec emax (Zpos (digits2_pos f) + e)) in *.
  assert (He0 : -1074 <= e0 <= e) by (subst e0; rewrite fexp_max; lia).
  clearbody e0.
  set (k := - e) in *. set (d := e - e0) in *.
  assert (Hk : 0 < k) by (subst k; lia). assert (Hd : 0 <= d) by (subst d; lia).
  unfold mul, SFmul, f1e9. rewrite xorb_false_r.
  set (M := (m1 * 8388608000000000)%positive).
  set (E := e0 + -23).
  assert (HE : - E = k + d + 23) by (subst E k d; lia).
  assert (HA : 0 < 2 ^ k) by (apply Z.pow_pos_nonneg; lia).
  assert (HD : 0 < 2 ^ d) by (apply Z.pow_pos_nonneg; lia).
  assert (HM : Zpos M = Zpos f * 10 ^ 9 * (2 ^ d * 2 ^ 23)).
  { subst M. rewrite Pos2Z.inj_mul, Hm1.
    change 8388608000000000 with (10 ^ 9 * 2 ^ 23). ring. }
  assert (HF : Zpos M / 2 ^ (- E) = F).
  { rewrite HM, HE. subst F. fold k.
    replace (k + d + 23) with (k + (d + 23)) by lia.
    rewrite (Z.pow_add_r 2 k) by lia. rewrite (Z.pow_add_r 2 d) by lia.
    apply Z.div_mul_cancel_r; lia. }
  assert (HFb : 0 <= F < 10 ^ 9).
  { subst F. split.
    - apply Z.div_pos; lia.
    - apply Z.div_lt_upper_bound; [lia|]. fold k in Hf. nia. }
  assert (HdM : Zpos (digits2_pos M) + E <= 30).
  { assert (Zpos (digits2_pos M) <= 30 - E); [|lia].
    apply digits_le; [lia|]. rewrite HM.
    replace (30 - E) with (k + d + 23 + 30) by lia.
    rewrite !Z.pow_add_r by lia. fold k in Hf.
    assert (10 ^ 9 < 2 ^ 30) by reflexivity.
    assert (0 < 2 ^ 23) by reflexivity. nia. }
  pose proof (round_aux_spec s M E) as Hspec. cbv zeta in Hspec.
  pose proof (round_shift_renorm M E) as [Hq0 _]. cbv zeta in Hq0.
  set (sM := fexp prec emax (Zpos (digits2_pos M) + E) - E) in *.
  set (q := round_shift (Zpos M) sM) in *.
  assert (HsM : E + Z.max 0 sM <= -23)
    by (subst sM; rewrite fexp_max; subst E; lia).
  set (t := - (E + Z.max 0 sM)).
  assert (Ht : 23 <= t) by (subst t; lia).
  assert (HT : 0 < 2 ^ t) by (apply Z.pow_pos_nonneg; lia).
  assert (Hn : to_int (binary_round_aux prec emax s (Zpos M) E loc_Exact) =
               Ok (signed s (q / 2 ^ t))).
  { destruct Hspec as [[Hz ->]|[m' [e' [-> [He' Hm']]]]];
      [unfold emax, prec; lia| |].
    - cbn [to_int]. rewrite Hz, Z.div_0_l, signed_0 by lia. reflexivity.
    - cbn [to_int]. destruct (Z.leb_spec 0 e'); [lia|].
      f_equal. f_equal. rewrite <- Hm'.
      replace t with (- e' + (e' - (E + Z.max 0 sM))) by (subst t; lia).
      rewrite Z.pow_add_r by lia.
      symmetry. apply Z.div_mul_cancel_r; apply Z.pow_nonzero; lia. }
  exists (q / 2 ^ t). split; [exact Hn|]. clear Hn Hspec.
  destruct (Z_lt_le_dec 0 sM) as [Hs|Hs].
  - (* some bits are dropped *)
    assert (HS : 0 < 2 ^ sM) by (apply Z.pow_pos_nonneg; lia).
    assert (Hst : sM + t = k + d + 23) by (subst t; lia).
    assert (HF' : Zpos M / 2 ^ sM / 2 ^ t = F).
    { rewrite Z.div_div by lia. rewrite <- Z.pow_add_r by lia.
      rewrite Hst, <- HE. exact HF. }
    pose proof (Z.div_mod (Zpos M) (2 ^ sM) ltac:(lia)) as Hdm.
    pose proof (Z.mod_pos_bound (Zpos M) (2 ^ sM) HS) as Hr.
    set (q0 := Zpos M / 2 ^ sM) in *. set (r := Zpos M mod 2 ^ sM) in *.
    assert (Hq0' : 0 <= q0) by (subst q0; apply Z.div_pos; lia).
    assert (Hup : (q0 + 1) / 2 ^ t <= F + 1).
    { rewrite <- HF'.
      replace (q0 / 2 ^ t + 1) with ((q0 + 1 * 2 ^ t) / 2 ^ t)
        by (rewrite Z.div_add by lia; reflexivity).
      apply Z.div_le_mono; lia. }
    assert (Hlo : F <= (q0 + 1) / 2 ^ t)
      by (rewrite <- HF'; apply Z.div_le_mono; lia).
    destruct (round_shift_bounds (Zpos M) sM ltac:(lia) Hs) as [[Hq Hrr]|[Hq Hrr]];
      fold q q0 r in Hq, Hrr; rewrite Hq.
    + rewrite HF'. repeat split; lia.
    + assert (Hbound : (q0 + 1) / 2 ^ t < 10 ^ 9).
      { apply Z.div_lt_upper_bound; [lia|].
        assert (HN : 2 ^ sM * (2 ^ t * 10 ^ 9) = 2 ^ k * (2 ^ d * (10 ^ 9 * 2 ^ 23))).
        { rewrite Z.mul_assoc, <- Z.pow_add_r, Hst by lia.
          rewrite !Z.pow_add_r by lia. ring. }
        assert (HsM' : 2 ^ sM <= 2 ^ k * 2 ^ d).
        { rewrite <- Z.pow_add_r by lia. apply Z.pow_le_mono_r; lia. }
        assert (Hgap : 2 ^ k < 2 * (10 ^ 9 * 2 ^ 23) * (2 ^ k - Zpos f)).
        { fold k in Hf. destruct (Z_le_gt_dec k 53) as [Hk53|Hk53].
          - assert (2 ^ k <= 2 ^ 53) by (apply Z.pow_le_mono_r; lia).
            assert (2 ^ 53 < 2 * (10 ^ 9 * 2 ^ 23)) by reflexivity. nia.
          - assert (2 * 2 ^ 53 <= 2 ^ k).
            { replace k with (Z.succ (k - 1)) by lia.
              rewrite Z.pow_succ_r by lia.
              assert (2 ^ 53 <= 2 ^ (k - 1)) by (apply Z.pow_le_mono_r; lia). lia. }
            assert (1 <= 10 ^ 9 * 2 ^ 23) by (vm_compute; discriminate). nia. }
        apply Z.mul_lt_mono_pos_l with (p := 2 ^ sM); [assumption|].
        rewrite HN. rewrite HM in Hdm.
        set (C := 10 ^ 9 * 2 ^ 23) in *.
        assert (HC : 0 < C) by reflexivity.
        assert (Zpos f * 10 ^ 9 * (2 ^ d * 2 ^ 23) = Zpos f * (2 ^ d * C))
          as HMC by (subst C; ring).
        rewrite HMC in Hdm. clear HMC.
        nia. }
      repeat split; try lia.
      intros Hexact.
      assert (HMG : Zpos M = Zpos f * 1953125 * 2 ^ (d + 32)).
      { rewrite HM. rewrite (Z.pow_add_r 2 d 32) by lia.
        change (10 ^ 9) with (1953125 * 2 ^ 9). change (2 ^ 32) with (2 ^ 9 * 2 ^ 23).
        ring. }
      destruct (Z_le_gt_dec (-1074) (Zpos (digits2_pos M) + E - 53)) as [Hn|Hn].
      * (* normal range: the dropped bits are all zero *)
        exfalso.
        assert (HdM' : Zpos (digits2_pos M) <= 53 + (d + 32)).
        { apply digits_le; [lia|]. rewrite HMG, (Z.pow_add_r 2 53) by lia.
          assert (0 < 2 ^ (d + 32)) by (apply Z.pow_pos_nonneg; lia). nia. }
        assert (HsMv : sM = Z.max (Zpos (digits2_pos M) + E - 53) (-1074) - E)
          by reflexivity.
        assert (HsM2 : sM <= d + 32) by lia.
        assert (Hr0 : r = 0).
        { subst r. rewrite HMG.
          replace (d + 32) with (d + 32 - sM + sM) by lia.
          rewrite Z.pow_add_r, Z.mul_assoc by lia.
          apply Z.mod_mul. lia. }
        lia.
      * (* subnormal range: the result is below one *)
        assert (HsMv : sM = Z.max (Zpos (digits2_pos M) + E - 53) (-1074) - E)
          by reflexivity.
        assert (Ht' : t = 1074) by (subst t; lia).
        assert (HsM2 : Zpos (digits2_pos M) <= sM + 53) by lia.
        assert (Hq53 : q0 < 2 ^ 53).
        { subst q0. apply Z.div_lt_upper_bound; [lia|].
          rewrite <- Z.pow_add_r by lia.
          apply Z.lt_le_trans with (2 ^ Zpos (digits2_pos M)); [apply digits_upper|].
          apply Z.pow_le_mono_r; lia. }
        assert (Hz : (q0 + 1) / 2 ^ t = 0).
        { apply Z.div_small. split; [lia|]. rewrite Ht'.
          assert (2 ^ 53 < 2 ^ 1074) by (apply Z.pow_lt_mono_r; lia). lia. }
        lia.
  - (* the product is exact *)
    assert (q = Zpos M) as ->.
    { subst q. unfold round_shift. destruct (Z.leb_spec sM 0); [reflexivity|lia]. }
    assert (t = - E) as -> by (subst t; lia).
    rewrite HF. repeat split; lia.
Qed.

Lemma signed_quot (s : bool) (a b : Z) :
  0 <= a -> 0 < b -> Z.quot (signed s a) b = signed s (a / b).
Proof.
  intros Ha Hb. destruct s; unfold signed.
  - rewrite Z.quot_opp_l by lia. now rewrite Z.quot_div_nonneg.
  - now apply Z.quot_div_nonneg.
Qed.

Lemma signed_mul (s : bool) (a b : Z) : signed s a * b = signed s (a * b).
Proof. destruct s; unfold signed; lia. Qed.

Lemma signed_sub (s : bool) (a b : Z) : signed s a - signed s b = signed s (a - b).
Proof. destruct s; unfold signed; lia. Qed.

Lemma Qtrunc_value (s : bool) (m : positive) (e : Z) :
  Qtrunc (value (S754_finite s m e)) =
  if 0 <=? e then signed s (Zpos m * 2 ^ e) else signed s (Zpos m / 2 ^ (- e)).
Proof.
  unfold Qtrunc, value. destruct (Z.leb_spec 0 e) as [He|He].
  - cbn [inject_Z Qnum Qden]. apply Z.quot_1_r.
  - cbn [Qnum Qden].
    assert (0 < 2 ^ (- e)) by (apply Z.pow_pos_nonneg; lia).
    rewrite Z2Pos.id by assumption. apply signed_quot; lia.
Qed.

Lemma Qtrunc_exact_nanos (s : bool) (m : positive) (e : Z) :
  Qtrunc (exact_nanos (S754_finite s m e)) =
  if 0 <=? e then 0
  else signed s (Zpos m mod 2 ^ (- e) * 10 ^ 9 / 2 ^ (- e)).
Proof.
  unfold exact_nanos. rewrite Qtrunc_value.
  unfold Qtrunc, value. destruct (Z.leb_spec 0 e) as [He|He].
  - cbn [inject_Z Qnum Qden Qmult Qminus Qplus Qopp].
    replace (signed s (Zpos m * 2 ^ e) * 1 + - signed s (Zpos m * 2 ^ e) * 1)
      with 0 by lia.
    reflexivity.
  - assert (Hp : 0 < 2 ^ (- e)) by (apply Z.pow_pos_nonneg; lia).
    cbn [inject_Z Qnum Qden Qmult Qminus Qplus Qopp].
    rewrite !Pos.mul_1_r, Z2Pos.id by assumption.
    pose proof (Z.div_mod (Zpos m) (2 ^ (- e)) ltac:(lia)) as Hdm.
    pose proof (Z.mod_pos_bound (Zpos m) (2 ^ (- e)) Hp) as Hr.
    replace (signed s (Zpos m) * 1 + - signed s (Zpos m / 2 ^ (- e)) * 2 ^ (- e))
      with (signed s (Zpos m mod 2 ^ (- e)))
      by (destruct s; unfold signed; lia).
    rewrite signed_mul. apply signed_quot; [|assumption].
    apply Z.mul_nonneg_nonneg; lia.
Qed.

(** The integer-level description of [timestamp_of] on a finite float
    with a negative exponent. *)
Lemma timestamp_of_fractional (s : bool) (m : positive) (e : Z) :
  valid (S754_finite s m e) = true -> e < 0 ->
  let F := Zpos m mod 2 ^ (- e) * 10 ^ 9 / 2 ^ (- e) in
  exists n,
    timestamp_of (S754_finite s m e) =
      Ok (signed s (Zpos m / 2 ^ (- e)), signed s n) /\
    (n = F \/ n = F + 1) /\ 0 <= n <= 999999999 /\
    (Zpos m mod 2 ^ (- e) * 1953125 < 2 ^ 53 -> n = F).
Proof.
  intros Hv He F.
  destruct (valid_finite s m e Hv) as [Hc [Hmax [Hd Hm]]].
  assert (Hemin : -1074 <= e) by (rewrite fexp_max in Hc; lia).
  assert (Hp : 0 < 2 ^ (- e)) by (apply Z.pow_pos_nonneg; lia).
  pose proof (Z.mod_pos_bound (Zpos m) (2 ^ (- e)) Hp) as Hr.
  pose proof (Z.div_mod (Zpos m) (2 ^ (- e)) ltac:(lia)) as Hdm.
  assert (Hip : 0 <= Zpos m / 2 ^ (- e) < 2 ^ 53).
  { split; [apply Z.div_pos; lia|].
    apply Z.le_lt_trans with (Zpos m); [|assumption].
    apply Z.div_le_upper_bound; [assumption|]. nia. }
  unfold timestamp_of, modf. destruct (Z.leb_spec 0 e); [lia|].
  rewrite (to_int_of_parts_int s _ Hip). cbn [mbind result_bind].
  destruct (Zpos m mod 2 ^ (- e)) as [|f|f] eqn:Ef; [| |lia].
  - exists 0. cbn [of_parts mul SFmul f1e9 to_int mbind result_bind]. rewrite signed_0.
    subst F. cbn [Z.mul Z.div]. rewrite Z.div_0_l by lia.
    repeat split; lia || auto.
  - cbn [of_parts].
    assert (Hf53 : Zpos f < 2 ^ 53) by nia.
    destruct (nanos_of_fraction s f e He Hemin ltac:(lia) Hf53)
      as [n [Hn [Hor [Hb Hex]]]].
    exists n. rewrite Hn. cbn [mbind result_bind]. repeat split; tauto || lia.
Qed.

End FloatFacts.

(** * The timestamp of the payload *)

Section timestamp.
Import Float FloatFacts.

Lemma Qle_0_value_sign (s : bool) (m : positive) (e : Z) :
  (0 <= value (S754_finite s m e))%Q -> s = false.
Proof.
  destruct s; [|reflexivity]. unfold value, signed, Qle.
  destruct (Z.leb_spec 0 e) as [He|He]; cbn [inject_Z Qnum Qden]; intros H; exfalso.
  - assert (0 < 2 ^ e) by (apply Z.pow_pos_nonneg; lia). nia.
  - lia.
Qed.

Lemma big_value_small_fraction (s : bool) (m : positive) (e : Z) :
  valid (S754_finite s m e) = true -> e < 0 ->
  (inject_Z (2 ^ 22) <= Qabs (value (S754_finite s m e)))%Q ->
  Zpos m mod 2 ^ (- e) * 1953125 < 2 ^ 53.
Proof.
  intros Hv He Hbig.
  destruct (valid_finite s m e Hv) as [_ [_ [_ Hm]]].
  assert (Hp : 0 < 2 ^ (- e)) by (apply Z.pow_pos_nonneg; lia).
  pose proof (Z.mod_pos_bound (Zpos m) (2 ^ (- e)) Hp) as Hr.
  unfold value in Hbig. destruct (Z.leb_spec 0 e); [lia|].
  unfold Qle, Qabs in Hbig. cbn [inject_Z Qnum Qden] in Hbig.
  rewrite Z2Pos.id in Hbig by assumption.
  assert (Habs : Z.abs (signed s (Zpos m)) = Zpos m)
    by (destruct s; unfold signed; lia).
  rewrite Habs in Hbig.
  assert (Hk : 2 ^ (- e) < 2 ^ 31).
  { assert (2 ^ 22 * 2 ^ (- e) < 2 ^ 22 * 2 ^ 31); [|lia].
    change (2 ^ 22 * 2 ^ 31) with (2 ^ 53). lia. }
  change (2 ^ 53) with (2 ^ 31 * 4194304). lia.
Qed.

(** What [timestamp_of] returns for every finite float. *)
Lemma timestamp_of_spec (x : spec_float) :
  valid x = true -> is_finite x = true ->
  exists seconds nanos,
    timestamp_of x = Ok (seconds, nanos) /\
    seconds = Qtrunc (value x) /\
    (nanos = Qtrunc (exact_nanos x) \/
     nanos = Qtrunc (exact_nanos x) + signed (sign x) 1) /\
    ((inject_Z (2 ^ 22) <= Qabs (value x))%Q ->
     nanos = Qtrunc (exact_nanos x)) /\
    ((0 <= value x)%Q ->
     seconds = Qfloor (value x) /\ 0 <= nanos <= 999999999) /\
    ((value x <= 0)%Q -> -999999999 <= nanos <= 0).
Proof.
  intros Hv Hfin. destruct x as [s|s| |s m e]; try discriminate.
  - exists 0, 0. cbn. repeat split; auto; lia.
  - rewrite Qtrunc_value, Qtrunc_exact_nanos. cbn [sign].
    destruct (Z.leb_spec 0 e) as [He|He].
    + exists (signed s (Zpos m * 2 ^ e)), 0.
      split.
      { unfold timestamp_of, modf. destruct (Z.leb_spec 0 e); [|lia].
        cbn [to_int mul SFmul f1e9 mbind result_bind].
        destruct (Z.leb_spec 0 e); [reflexivity|lia]. }
      split; [reflexivity|]. split; [left; reflexivity|].
      split; [intros _; reflexivity|]. split; [|intros _; lia].
      intros Hpos. apply Qle_0_value_sign in Hpos. subst s.
      unfold value. destruct (Z.leb_spec 0 e); [|lia].
      cbn [signed]. rewrite Qfloor_Z. split; [reflexivity|lia].
    + destruct (timestamp_of_fractional s m e Hv He) as [n [Hts [Hor [Hb Hex]]]].
      set (F := Zpos m mod 2 ^ (- e) * 10 ^ 9 / 2 ^ (- e)) in *.
      exists (signed s (Zpos m / 2 ^ (- e))), (signed s n).
      split; [exact Hts|]. split; [reflexivity|].
      split; [|split; [|split]].
      * destruct Hor as [-> | ->]; [left; reflexivity|right].
        destruct s; unfold signed; lia.
      * intros Hbig. f_equal. apply Hex.
        now apply big_value_small_fraction with (s := s).
      * intros Hpos. apply Qle_0_value_sign in Hpos. subst s.
        cbn [signed]. split; [|lia].
        unfold value. destruct (Z.leb_spec 0 e); [lia|].
        unfold Qfloor, signed.
        rewrite Z2Pos.id by (apply Z.pow_pos_nonneg; lia). reflexivity.
      * intros Hneg. destruct s; unfold signed; [lia|].
        exfalso. revert Hneg. unfold value, signed, Qle.
        destruct (Z.leb_spec 0 e); [lia|]. cbn [Qnum Qden]. lia.
Qed.

End timestamp.

(** * The payload and the trace id *)

Section payload.

Lemma hd_split (sep : N) (s : text) : hd [] (split sep s) = before sep s.
Proof.
  induction s as [|c s IH]; [reflexivity|].
  cbn [split before]. destruct (c =? sep)%N; [reflexivity|].
  destruct (split sep s) as [|h t]; cbn [hd] in *; congruence.
Qed.

(** The payload, once the timestamp is known. *)
Lemma payload_of_timestamp (record : LogRecord) (env : environ) (seconds nanos : Z) :
  timestamp_of (created record) = Ok (seconds, nanos) ->
  payload_of record env =
  Ok ([(u "message", PyStr (message record));
       (u "timestamp", timestamp_dict seconds nanos);
       (u "thread", thread record);
       (u "severity", levelname record)] ++
      (if truthy (resolve_trace_id record env)
       then [(u "traceId", resolve_trace_id record env)] else [])).
Proof.
  intros Hts. unfold payload_of. rewrite Hts. cbn [mbind result_bind].
  destruct (truthy (resolve_trace_id record env)); reflexivity.
Qed.

(** [format] returns a payload for every record with a finite timestamp. *)
Lemma payload_of_finite (record : LogRecord) (env : environ) :
  Float.valid (created record) = true ->
  Float.is_finite (created record) = true ->
  exists seconds nanos,
    timestamp_of (created record) = Ok (seconds, nanos) /\
    payload_of record env =
    Ok ([(u "message", PyStr (message record));
         (u "timestamp", timestamp_dict seconds nanos);
         (u "thread", thread record);
         (u "severity", levelname record)] ++
        (if truthy (resolve_trace_id record env)
         then [(u "traceId", resolve_trace_id record env)] else [])).
Proof.
  intros Hv Hf.
  destruct (timestamp_of_spec _ Hv Hf) as [seconds [nanos [Hts _]]].
  exists seconds, nanos. split; [exact Hts|].
  now apply payload_of_timestamp.
Qed.

End payload.

(** * Properties of the payload *)

Section payload_claims.
Import Float Samples.




(** C10: for every record whose creation time is finite and non-negative
    the payload's [timestamp.nanos] lies between [0] and [999999999]. *)
Theorem C10_nanos_normalized (record : LogRecord) (env : environ) :
  valid (created record) = true ->
  is_finite (created record) = true ->
  (0 <= value (created record))%Q ->
  exists payload seconds nanos,
    payload_of record env = Ok payload /\
    getitem payload (u "timestamp") = Some (timestamp_dict seconds nanos) /\
    0 <= nanos <= 999999999.
Proof.
  intros Hv Hf Hpos.
  destruct (timestamp_of_spec _ Hv Hf)
    as [seconds [nanos [Hts [_ [_ [_ [Hnn _]]]]]]].
  eexists _, seconds, nanos.
  split; [apply payload_of_timestamp; exact Hts|].
  split; [reflexivity|]. now apply Hnn.
Qed.

Lemma C10_nanos_normalized_witness :
  exists payload seconds nanos,
    payload_of (record_at three_tenths) ∅ = Ok payload /\
    getitem payload (u "timestamp") = Some (timestamp_dict seconds nanos) /\
    0 <= nanos <= 999999999.
Proof.
  apply (C10_nanos_normalized (record_at three_tenths) ∅);
    [reflexivity | reflexivity | vm_compute; discriminate].
Defined.

(** C3: a record that carries a truthy (for a string: non-empty)
    [trace_id] attribute has that very value under [traceId], whatever
    the environment holds. *)
Theorem C3_explicit_trace_id_wins (record : LogRecord) (env : environ) (v : pyval) :
  valid (created record) = true ->
  is_finite (created record) = true ->
  trace_id record = Some v ->
  truthy v = true ->
  exists payload,
    payload_of record env = Ok payload /\
    getitem payload (u "traceId") = Some v.
Proof.
  intros Hv Hf Htid Htruthy.
  destruct (payload_of_finite record env Hv Hf) as [seconds [nanos [_ Hp]]].
  eexists. split; [exact Hp|].
  assert (Hr : resolve_trace_id record env = v).
  { unfold resolve_trace_id. rewrite Htid. cbn [default from_option id]. now rewrite Htruthy. }
  rewrite Hr, Htruthy. reflexivity.
Qed.

Lemma C3_explicit_trace_id_wins_witness :
  exists payload,
    payload_of traced (with_header "abc123/options=1") = Ok payload /\
    getitem payload (u "traceId") = Some (PyStr (u "f00d")).
Proof.
  apply (C3_explicit_trace_id_wins traced (with_header "abc123/options=1"));
    reflexivity.
Defined.

(** C4: without a truthy [trace_id] attribute the trace id is the part
    of the header before the first [/]: it is emitted under [traceId]
    when it is non-empty, and the payload has no [traceId] key when it is
    empty (an unset or empty header included). *)
Theorem C4_trace_id_from_header (record : LogRecord) (env : environ) :
  valid (created record) = true ->
  is_finite (created record) = true ->
  truthy (default PyNone (trace_id record)) = false ->
  let prefix := before slash (getenv env HTTP_X_CLOUD_TRACE_CONTEXT []) in
  exists payload,
    payload_of record env = Ok payload /\
    (prefix <> [] -> getitem payload (u "traceId") = Some (PyStr prefix)) /\
    (prefix = [] -> u "traceId" ∉ keys payload).
Proof.
  intros Hv Hf Hfalsy prefix.
  destruct (payload_of_finite record env Hv Hf) as [seconds [nanos [_ Hp]]].
  eexists. split; [exact Hp|].
  assert (Hr : resolve_trace_id record env = PyStr prefix).
  { unfold resolve_trace_id. rewrite Hfalsy. cbn [negb].
    now rewrite hd_split. }
  rewrite Hr. cbn [truthy]. split.
  - intros Hne. rewrite bool_decide_eq_false_2 by assumption. reflexivity.
  - intros He. rewrite bool_decide_eq_true_2 by assumption.
    cbn [negb]. rewrite app_nil_r. vm_compute.
    intros H. repeat (apply elem_of_cons in H as [H|H]; [discriminate|]).
    now apply elem_of_nil in H.
Qed.

Lemma C4_trace_id_from_header_witness :
  exists payload,
    payload_of (record_at recent) (with_header "abc123/options=1") = Ok payload /\
    (u "abc123" <> [] -> getitem payload (u "traceId") = Some (PyStr (u "abc123"))) /\
    (u "abc123" = [] -> u "traceId" ∉ keys payload).
Proof.
  apply (C4_trace_id_from_header (record_at recent) (with_header "abc123/options=1"));
    reflexivity.
Defined.

(** C9: the payload has the keys [message], [timestamp], [thread] and
    [severity], followed by [traceId] exactly when the resolved trace id
    is truthy, and no other key; its [timestamp] is a dictionary with the
    keys [seconds] and [nanos]. *)
Theorem C9_payload_keys (record : LogRecord) (env : environ) :
  valid (created record) = true ->
  is_finite (created record) = true ->
  exists payload seconds nanos,
    payload_of record env = Ok payload /\
    keys payload =
      [u "message"; u "timestamp"; u "thread"; u "severity"] ++
      (if truthy (resolve_trace_id record env) then [u "traceId"] else []) /\
    getitem payload (u "timestamp") =
      Some (PyDict [(u "seconds", PyInt seconds); (u "nanos", PyInt nanos)]).
Proof.
  intros Hv Hf.
  destruct (payload_of_finite record env Hv Hf) as [seconds [nanos [_ Hp]]].
  eexists _, seconds, nanos. split; [exact Hp|].
  split; [|reflexivity].
  destruct (truthy (resolve_trace_id record env)); reflexivity.
Qed.

Lemma C9_payload_keys_witness :
  exists payload seconds nanos,
    payload_of traced ∅ = Ok payload /\
    keys payload =
      [u "message"; u "timestamp"; u "thread"; u "severity"] ++
      (if truthy (resolve_trace_id traced ∅) then [u "traceId"] else []) /\
    getitem payload (u "timestamp") =
      Some (PyDict [(u "seconds", PyInt seconds); (u "nanos", PyInt nanos)]).
Proof.
  apply (C9_payload_keys traced ∅); reflexivity.
Defined.

End payload_claims.

(** * Facts about [json.dumps] *)

Module JsonFacts.
Import Json.

Lemma dumps_list (l : list pyval) :
  dumps (PyList l) =
  dumps_items l ≫= (fun items => Ok (lit "[" ++ join (lit ", ") items ++ lit "]")).
Proof.
  reflexivity.
Qed.

Lemma dumps_dict (d : list (text * pyval)) :
  dumps (PyDict d) =
  dumps_members d ≫= (fun items => Ok (lit "{" ++ join (lit ", ") items ++ lit "}")).
Proof.
  reflexivity.
Qed.

Lemma serializable_dict (d : list (text * pyval)) :
  serializable (PyDict d) = forallb (fun kv => serializable (snd kv)) d.
Proof.
  cbn [serializable]. induction d as [|[k x] d IH]; [reflexivity|].
  cbn [forallb snd]. now rewrite <- IH.
Qed.

(** [dumps] returns exactly on the values without a [PyObject] inside,
    and raises [TypeError] on the others. *)
Lemma dumps_total (v : pyval) :
  (serializable v = true -> exists b, dumps v = Ok b) /\
  (serializable v = false -> dumps v = Raise TypeError).
Proof.
  induction v as [|b|z|s|l IH|d IH|r t] using pyval_ind;
    try (split; [intros _; eexists; reflexivity | discriminate]).
  - destruct b; (split; [intros _; eexists; reflexivity | discriminate]).
  - rewrite dumps_list. cbn [serializable].
    assert (Hitems :
      (forallb serializable l = true -> exists bs, dumps_items l = Ok bs) /\
      (forallb serializable l = false -> dumps_items l = Raise TypeError)).
    { induction IH as [|x l [Hx1 Hx2] _ [IH1 IH2]]; [split; [eexists; reflexivity|discriminate]|].
      cbn [forallb dumps_items].
      destruct (serializable x).
      - destruct (Hx1 eq_refl) as [a ->]. cbn [andb mbind result_bind].
        split.
        + intros H. destruct (IH1 H) as [bs ->]. eexists; reflexivity.
        + intros H. now rewrite (IH2 H).
      - rewrite (Hx2 eq_refl). split; [discriminate|reflexivity]. }
    destruct Hitems as [H1 H2]. split; intros H.
    + destruct (H1 H) as [bs ->]. eexists; reflexivity.
    + now rewrite (H2 H).
  - rewrite dumps_dict, serializable_dict.
    assert (Hitems :
      (forallb (fun kv => serializable (snd kv)) d = true ->
       exists bs, dumps_members d = Ok bs) /\
      (forallb (fun kv => serializable (snd kv)) d = false ->
       dumps_members d = Raise TypeError)).
    { induction IH as [|[k x] d [Hx1 Hx2] _ [IH1 IH2]]; [split; [eexists; reflexivity|discriminate]|].
      cbn [forallb dumps_members snd] in *.
      destruct (serializable x).
      - destruct (Hx1 eq_refl) as [a ->]. cbn [andb mbind result_bind].
        split.
        + intros H. destruct (IH1 H) as [bs ->]. eexists; reflexivity.
        + intros H. now rewrite (IH2 H).
      - rewrite (Hx2 eq_refl). split; [discriminate|reflexivity]. }
    destruct Hitems as [H1 H2]. split; intros H.
    + destruct (H1 H) as [bs ->]. eexists; reflexivity.
    + now rewrite (H2 H).
  - split; [discriminate|reflexivity].
Qed.

End JsonFacts.

Section format_claims.
Import Float Samples.




End format_claims.

(** * Facts about the rotating file handler *)

Module HandlerFacts.

Lemma to_int_proper (z : Z) :
  Z.to_int z <> Decimal.Pos Decimal.Nil /\ Z.to_int z <> Decimal.Neg Decimal.Nil.
Proof.
  destruct z as [|p|p]; cbn [Z.to_int]; split; try discriminate;
    intros [= H]; now apply (DecimalPos.Unsigned.to_uint_nonnil p).
Qed.

(** Decimal printing loses nothing. *)
Lemma str_inj (z1 z2 : Z) : str z1 = str z2 -> z1 = z2.
Proof.
  intros H. unfold str in H.
  destruct (to_int_proper z1) as [Ha Hb], (to_int_proper z2) as [Hc Hd].
  pose proof (NilZero.isi _ Ha Hb) as H1. pose proof (NilZero.isi _ Hc Hd) as H2.
  rewrite H in H1. rewrite H1 in H2. injection H2 as H2.
  rewrite <- (DecimalZ.of_to z1), <- (DecimalZ.of_to z2). now f_equal.
Qed.

Lemma backup_inj (h : RotatingFileHandler) (i j : Z) :
  backup h i = backup h j -> i = j.
Proof.
  unfold backup. intros H. apply (inj _) in H. apply (inj _) in H.
  now apply str_inj.
Qed.

Lemma append_empty_r (s : string) : s +:+ "" = s.
Proof.
  induction s as [|c s IH]; [reflexivity|].
  change (String c s +:+ "") with (String c (s +:+ "")). now rewrite IH.
Qed.

Lemma append_assoc (a b c : string) : (a +:+ b) +:+ c = a +:+ b +:+ c.
Proof.
  induction a as [|x a IH]; [reflexivity|].
  change ((String x a +:+ b) +:+ c) with (String x ((a +:+ b) +:+ c)).
  now rewrite IH.
Qed.

Lemma backup_ne_base (h : RotatingFileHandler) (i : Z) :
  backup h i <> baseFilename h.
Proof.
  unfold backup. intros H.
  rewrite <- (append_empty_r (baseFilename h)) in H at 2.
  apply (inj _) in H. discriminate.
Qed.

Lemma backups_distinct (h : RotatingFileHandler) (i j : Z) :
  i <> j -> backup h i <> backup h j.
Proof. intros Hne H. now apply backup_inj in H. Qed.

Lemma exists_Some (fs : filesystem) (p : string) (c : bytes) :
  fs !! p = Some c -> Fs.exists_ fs p = true.
Proof. intros H. unfold Fs.exists_. apply bool_decide_eq_true_2. eauto. Qed.

Lemma exists_None (fs : filesystem) (p : string) :
  fs !! p = None -> Fs.exists_ fs p = false.
Proof.
  intros H. unfold Fs.exists_. apply bool_decide_eq_false_2.
  rewrite H. intros [c Hc]. discriminate.
Qed.

Lemma rename_lookup (fs : filesystem) (src dst p : string) (c : bytes) :
  fs !! src = Some c ->
  Fs.rename fs src dst !! p =
  if decide (p = dst) then Some c
  else if decide (p = src) then None else fs !! p.
Proof.
  intros Hsrc. unfold Fs.rename. rewrite Hsrc.
  destruct (decide (p = dst)) as [->|Hd]; [apply lookup_insert_eq|].
  rewrite lookup_insert_ne by congruence.
  destruct (decide (p = src)) as [->|Hs]; [apply lookup_delete_eq|].
  now rewrite lookup_delete_ne by congruence.
Qed.

(** One turn of the loop, seen through the lookups. *)
Lemma shift_lookup (h : RotatingFileHandler) (fs : filesystem) (i : Z) (p : string) :
  shift h fs i !! p =
  match fs !! backup h i with
  | Some c =>
      if decide (p = backup h (i + 1)) then Some c
      else if decide (p = backup h i) then None else fs !! p
  | None => fs !! p
  end.
Proof.
  unfold shift.
  assert (Hne : backup h i <> backup h (i + 1)) by (apply backups_distinct; lia).
  destruct (fs !! backup h i) as [c|] eqn:Ei.
  - rewrite (exists_Some _ _ _ Ei).
    set (fs0 := if Fs.exists_ fs (backup h (i + 1))
                then Fs.remove fs (backup h (i + 1)) else fs).
    assert (H0 : forall q, q <> backup h (i + 1) -> fs0 !! q = fs !! q).
    { intros q Hq. subst fs0. destruct (Fs.exists_ fs (backup h (i + 1))); [|reflexivity].
      unfold Fs.remove. now rewrite lookup_delete_ne by congruence. }
    rewrite (rename_lookup fs0 _ _ p c) by (rewrite H0; assumption).
    destruct (decide (p = backup h (i + 1))); [reflexivity|].
    destruct (decide (p = backup h i)); [reflexivity|]. now apply H0.
  - now rewrite (exists_None _ _ Ei).
Qed.

(** The end of a rollover: the active file becomes backup 1 and a new
    empty active file is opened. *)
Lemma rollover_tail_lookup (fs : filesystem) (base b1 p : string) (active : bytes) :
  b1 <> base -> fs !! base = Some active ->
  Fs.open_append
    (let fs3 := if Fs.exists_ fs b1 then Fs.remove fs b1 else fs in
     if Fs.exists_ fs3 base then Fs.rename fs3 base b1 else fs3) base !! p =
  if decide (p = base) then Some []
  else if decide (p = b1) then Some active else fs !! p.
Proof.
  intros Hne Hbase. cbv zeta.
  set (fs3 := if Fs.exists_ fs b1 then Fs.remove fs b1 else fs).
  assert (H3 : forall q, q <> b1 -> fs3 !! q = fs !! q).
  { intros q Hq. subst fs3. destruct (Fs.exists_ fs b1); [|reflexivity].
    unfold Fs.remove. now rewrite lookup_delete_ne by congruence. }
  assert (Hb3 : fs3 !! base = Some active) by (rewrite H3; congruence).
  rewrite (exists_Some _ _ _ Hb3).
  pose proof (rename_lookup fs3 base b1) as Hren.
  unfold Fs.open_append. rewrite (Hren base active Hb3).
  rewrite decide_False by congruence. rewrite decide_True by reflexivity.
  destruct (decide (p = base)) as [->|Hp]; [apply lookup_insert_eq|].
  rewrite lookup_insert_ne by congruence. rewrite (Hren p active Hb3).
  destruct (decide (p = b1)); [reflexivity|].
  rewrite decide_False by assumption. now apply H3.
Qed.

(** The file system after a rollover of a handler that keeps three
    backups. *)
Lemma doRollover_three (h : RotatingFileHandler) (fs : filesystem) (active : bytes) :
  backupCount h = 3 ->
  fs !! baseFilename h = Some active ->
  doRollover h fs !! baseFilename h = Some [] /\
  doRollover h fs !! backup h 1 = Some active /\
  doRollover h fs !! backup h 2 = fs !! backup h 1 /\
  doRollover h fs !! backup h 3 =
    match fs !! backup h 2 with Some c => Some c | None => fs !! backup h 3 end /\
  (forall p, p <> baseFilename h -> p <> backup h 1 -> p <> backup h 2 ->
             p <> backup h 3 -> doRollover h fs !! p = fs !! p).
Proof.
  intros HK Hbase.
  pose proof (backup_ne_base h 1) as N1. pose proof (backup_ne_base h 2) as N2.
  pose proof (backup_ne_base h 3) as N3.
  pose proof (backups_distinct h 1 2 ltac:(lia)) as N12.
  pose proof (backups_distinct h 1 3 ltac:(lia)) as N13.
  pose proof (backups_distinct h 2 3 ltac:(lia)) as N23.
  assert (Hlook : forall p,
    doRollover h fs !! p =
    if decide (p = baseFilename h) then Some []
    else if decide (p = backup h 1) then Some active
    else shift h (shift h fs 2) 1 !! p).
  { intros p. unfold doRollover. rewrite HK.
    change (0 <? 3) with true. cbv iota.
    change (countdown (Z.to_nat (3 - 1))) with [2; 1].
    change (baseFilename h +:+ ".1") with (backup h 1).
    cbn [foldl].
    apply rollover_tail_lookup; [assumption|].
    rewrite !shift_lookup. change (2 + 1) with 3. change (1 + 1) with 2.
    repeat (case_match; try (repeat case_decide; congruence)). }
  assert (Hshift : forall p,
    shift h (shift h fs 2) 1 !! p =
    if decide (p = backup h 2) then fs !! backup h 1
    else if decide (p = backup h 3)
         then match fs !! backup h 2 with
              | Some c => Some c
              | None => fs !! backup h 3
              end
         else if decide (p = backup h 1) then None else fs !! p).
  { intros p. rewrite !shift_lookup. change (2 + 1) with 3. change (1 + 1) with 2.
    destruct (fs !! backup h 2) as [c2|] eqn:E2;
      destruct (fs !! backup h 1) as [c1|] eqn:E1;
      repeat case_decide; subst; try congruence. }
  repeat split; intros; rewrite Hlook, ?Hshift;
    repeat case_decide; congruence.
Qed.

Lemma write_lookup (fs : filesystem) (path p : string) (data : bytes) :
  Fs.write fs path data !! p =
  if decide (p = path) then Some (default [] (fs !! path) ++ data) else fs !! p.
Proof.
  unfold Fs.write. destruct (decide (p = path)) as [->|Hp].
  - apply lookup_insert_eq.
  - now rewrite lookup_insert_ne by congruence.
Qed.

Lemma shouldRollover_spec (h : RotatingFileHandler) (fs : filesystem)
    (line active : bytes) :
  fs !! baseFilename h = Some active ->
  shouldRollover h fs line =
  (0 <? maxBytes h) &&
  (maxBytes h <=? Z.of_nat (length active) + Z.of_nat (length (line ++ [newline]))).
Proof. intros H. unfold shouldRollover, Fs.size. now rewrite H. Qed.

(** A write that rolls over, for a handler that keeps three backups. *)
Lemma emit_line_rollover (h : RotatingFileHandler) (fs : filesystem)
    (line active : bytes) :
  backupCount h = 3 ->
  fs !! baseFilename h = Some active ->
  shouldRollover h fs line = true ->
  emit_line h fs line =
    Fs.write (doRollover h fs) (baseFilename h) (line ++ [newline]) /\
  emit_line h fs line !! baseFilename h = Some (line ++ [newline]) /\
  emit_line h fs line !! backup h 1 = Some active /\
  emit_line h fs line !! backup h 2 = fs !! backup h 1 /\
  emit_line h fs line !! backup h 3 =
    match fs !! backup h 2 with Some c => Some c | None => fs !! backup h 3 end /\
  (forall p, p <> baseFilename h -> p <> backup h 1 -> p <> backup h 2 ->
             p <> backup h 3 -> emit_line h fs line !! p = fs !! p).
Proof.
  intros HK Hbase Hroll.
  destruct (doRollover_three h fs active HK Hbase) as [R0 [R1 [R2 [R3 Rp]]]].
  pose proof (backup_ne_base h 1). pose proof (backup_ne_base h 2).
  pose proof (backup_ne_base h 3).
  unfold emit_line. rewrite Hroll.
  split; [reflexivity|].
  repeat split; intros; rewrite write_lookup;
    [rewrite decide_True by reflexivity; now rewrite R0
    |rewrite decide_False by assumption..]; auto.
Qed.

(** A write that does not roll over. *)
Lemma emit_line_append (h : RotatingFileHandler) (fs : filesystem)
    (line active : bytes) :
  fs !! baseFilename h = Some active ->
  shouldRollover h fs line = false ->
  emit_line h fs line !! baseFilename h = Some (active ++ line ++ [newline]) /\
  (forall p, p <> baseFilename h -> emit_line h fs line !! p = fs !! p).
Proof.
  intros Hbase Hroll. unfold emit_line. rewrite Hroll. split.
  - rewrite write_lookup, decide_True by reflexivity. now rewrite Hbase.
  - intros p Hp. now rewrite write_lookup, decide_False.
Qed.

Lemma rotation_inv_step (h : RotatingFileHandler) (fs : filesystem)
    (closed : list bytes) (line : bytes) :
  backupCount h = 3 ->
  rotation_inv h fs closed ->
  rotation_inv h (emit_line h fs line)
    (if shouldRollover h fs line
     then default [] (fs !! baseFilename h) :: closed else closed).
Proof.
  intros HK [[active Hbase] [Hbeyond Hgen]].
  destruct (shouldRollover h fs line) eqn:Hroll.
  - destruct (emit_line_rollover h fs line active HK Hbase Hroll)
      as [_ [E0 [E1 [E2 [E3 Ep]]]]].
    rewrite Hbase. cbn [default from_option id].
    split; [rewrite E0; eauto|]. split.
    + intros i Hi. rewrite Ep; [now apply Hbeyond|apply backup_ne_base|..];
        apply backups_distinct; lia.
    + intros i Hi Hlen. cbn [length] in Hlen.
      destruct i as [|[|[|i]]]; [| | |lia].
      * exact E1.
      * change (Z.of_nat 1 + 1) with 2. rewrite E2.
        apply (Hgen 0%nat); lia.
      * change (Z.of_nat 2 + 1) with 3. rewrite E3.
        pose proof (Hgen 1%nat ltac:(lia) ltac:(lia)) as H1.
        change (Z.of_nat 1 + 1) with 2 in H1. rewrite H1.
        destruct (lookup_lt_is_Some_2 closed 1%nat ltac:(lia)) as [c Hc].
        cbn [lookup list_lookup] in *. now rewrite Hc.
  - destruct (emit_line_append h fs line active Hbase Hroll) as [E0 Ep].
    split; [rewrite E0; eauto|]. split.
    + intros i Hi. rewrite Ep by apply backup_ne_base. now apply Hbeyond.
    + intros i Hi Hlen. rewrite Ep by apply backup_ne_base. now apply Hgen.
Qed.

Lemma rotation_inv_run (h : RotatingFileHandler) (lines : list bytes) :
  backupCount h = 3 ->
  forall fs closed,
    rotation_inv h fs closed ->
    rotation_inv h (emit_lines h fs lines) (closed_files h fs lines closed).
Proof.
  intros HK. induction lines as [|line lines IH]; intros fs closed Hinv.
  - exact Hinv.
  - cbn [emit_lines foldl closed_files]. apply IH.
    now apply rotation_inv_step.
Qed.

End HandlerFacts.

(** * Facts about decimal numerals and file names *)

Module PathFacts.
Import HandlerFacts.

Lemma list_ascii_app (a b : string) :
  list_ascii_of_string (a +:+ b) = list_ascii_of_string a ++ list_ascii_of_string b.
Proof.
  induction a as [|c a IH]; [reflexivity|].
  change (String c a +:+ b) with (String c (a +:+ b)).
  cbn [list_ascii_of_string app]. now rewrite IH.
Qed.

Lemma list_ascii_inj (a b : string) :
  list_ascii_of_string a = list_ascii_of_string b -> a = b.
Proof.
  intros H. rewrite <- (string_of_list_ascii_of_string a),
    <- (string_of_list_ascii_of_string b). now rewrite H.
Qed.

Lemma uint_digits (d : Decimal.uint) :
  Forall is_digit (list_ascii_of_string (NilEmpty.string_of_uint d)).
Proof.
  induction d; cbn [NilEmpty.string_of_uint list_ascii_of_string];
    constructor; try assumption; unfold is_digit; cbn; lia.
Qed.

(** [str z] is an optional minus sign followed by digits, at least one. *)
Lemma str_shape (z : Z) :
  exists sign digits,
    list_ascii_of_string (str z) = sign ++ digits /\
    (sign = [] \/ sign = ["-"%char]) /\
    Forall is_digit digits /\ digits <> [].
Proof.
  unfold str.
  assert (Hnil : forall p,
    list_ascii_of_string (NilZero.string_of_uint (Pos.to_uint p)) <> [] /\
    Forall is_digit (list_ascii_of_string (NilZero.string_of_uint (Pos.to_uint p)))).
  { intros p. pose proof (DecimalPos.Unsigned.to_uint_nonnil p) as Hp.
    pose proof (uint_digits (Pos.to_uint p)) as Hd.
    destruct (Pos.to_uint p) eqn:E; try congruence;
      cbn [NilZero.string_of_uint]; (split; [discriminate|exact Hd]). }
  destruct z as [|p|p]; cbn [Z.to_int NilZero.string_of_int].
  - exists [], ["0"%char]. repeat split; auto.
    constructor; [unfold is_digit; cbn; lia|constructor].
  - destruct (Hnil p) as [H1 H2]. eexists [], _. split; [reflexivity|]. auto.
  - destruct (Hnil p) as [H1 H2]. eexists ["-"%char], _.
    split; [reflexivity|]. auto.
Qed.

Lemma str_no_dot (z : Z) : "."%char ∉ list_ascii_of_string (str z).
Proof.
  destruct (str_shape z) as [sign [digits [-> [Hs [Hd _]]]]].
  intros H. apply elem_of_app in H as [H|H].
  - destruct Hs as [-> | ->]; [now apply elem_of_nil in H|].
    apply list_elem_of_singleton in H. discriminate.
  - rewrite Forall_forall in Hd. specialize (Hd _ H).
    unfold is_digit in Hd. cbn in Hd. lia.
Qed.

(** Two strings that agree up to and after their first [c] agree before
    it. *)
Lemma app_pivot_inj {A : Type} (c : A) (l1 l2 r1 r2 : list A) :
  c ∉ l1 -> c ∉ l2 -> l1 ++ c :: r1 = l2 ++ c :: r2 -> l1 = l2.
Proof.
  revert l2. induction l1 as [|x l1 IH]; intros [|y l2] H1 H2 H; cbn in H.
  - reflexivity.
  - injection H as -> _. exfalso. apply H2. left.
  - injection H as -> _. exfalso. apply H1. left.
  - injection H as -> H. f_equal. apply IH; [| |exact H].
    + intros Hin. apply H1. now right.
    + intros Hin. apply H2. now right.
Qed.

(** A file of the handler of [pid] names [pid]. *)
Lemma handler_file_shape (pid : Z) (p : string) :
  p ∈ files_of (CloudLoggingHandler pid) ->
  exists rest, p = "/var/log/app_engine/app." +:+ str pid +:+ String "." rest.
Proof.
  unfold files_of.
  change (countdown (Z.to_nat (backupCount (CloudLoggingHandler pid))))
    with [3; 2; 1].
  cbn [map]. unfold backup. cbn [baseFilename CloudLoggingHandler].
  unfold LOG_PATH_TEMPLATE.
  intros H. repeat (apply elem_of_cons in H as [->|H]).
  - now exists "json".
  - exists "json.3". now rewrite !append_assoc.
  - exists "json.2". now rewrite !append_assoc.
  - exists "json.1". now rewrite !append_assoc.
  - now apply elem_of_nil in H.
Qed.

Lemma handler_file_pid (pid1 pid2 : Z) (r1 r2 : string) :
  "/var/log/app_engine/app." +:+ str pid1 +:+ String "." r1 =
  "/var/log/app_engine/app." +:+ str pid2 +:+ String "." r2 ->
  pid1 = pid2.
Proof.
  intros H. apply (inj _) in H. apply (f_equal list_ascii_of_string) in H.
  rewrite !list_ascii_app in H. cbn [list_ascii_of_string] in H.
  apply app_pivot_inj in H; try apply str_no_dot.
  now apply str_inj, list_ascii_inj.
Qed.

End PathFacts.

Section path_claims.
Import PathFacts.

(** C8: the active file of the handler of a process is
    [/var/log/app_engine/app.<pid>.json]; for distinct process ids the
    active files are distinct, and no file of one handler (active or
    backup) is a file of the other. *)
Theorem C8_one_file_per_process (pid1 pid2 : Z) :
  pid1 <> pid2 ->
  baseFilename (CloudLoggingHandler pid1)
    = "/var/log/app_engine/app." +:+ str pid1 +:+ ".json" /\
  baseFilename (fst (init pid1 ∅)) = baseFilename (CloudLoggingHandler pid1) /\
  baseFilename (CloudLoggingHandler pid1) <> baseFilename (CloudLoggingHandler pid2) /\
  (forall p, p ∈ files_of (CloudLoggingHandler pid1) ->
             p ∉ files_of (CloudLoggingHandler pid2)).
Proof.
  intros Hne. split; [reflexivity|]. split; [reflexivity|]. split.
  - intros H. apply Hne. now apply (handler_file_pid pid1 pid2 "json" "json").
  - intros p H1 H2.
    apply handler_file_shape in H1 as [r1 ->].
    apply handler_file_shape in H2 as [r2 H2].
    apply Hne. now apply (handler_file_pid pid1 pid2 r1 r2).
Qed.

Lemma C8_one_file_per_process_witness :
  baseFilename (CloudLoggingHandler 4711)
    = "/var/log/app_engine/app." +:+ str 4711 +:+ ".json" /\
  baseFilename (fst (init 4711 ∅)) = baseFilename (CloudLoggingHandler 4711) /\
  baseFilename (CloudLoggingHandler 4711) <> baseFilename (CloudLoggingHandler 4712) /\
  (forall p, p ∈ files_of (CloudLoggingHandler 4711) ->
             p ∉ files_of (CloudLoggingHandler 4712)).
Proof.
  apply (C8_one_file_per_process 4711 4712). discriminate.
Defined.

End path_claims.

(** * Properties of the rotating sink *)

Section handler_claims.
Import HandlerFacts.

(** C6: the handler of a process rotates at 128 MiB and keeps three
    backups; and for every handler with a positive size limit that keeps
    three backups, a write that would make the active file exceed the
    limit is preceded by exactly one rollover: the active file becomes
    backup 1 with its content unchanged, every existing backup [i < 3]
    becomes backup [i + 1], and the new active file holds the line and
    its terminator and nothing else. *)
Theorem C6_rollover_before_write (h : RotatingFileHandler) (fs : filesystem)
    (line active : bytes) :
  0 < maxBytes h ->
  backupCount h = LOG_FILE_COUNT ->
  fs !! baseFilename h = Some active ->
  maxBytes h < Z.of_nat (length active) + Z.of_nat (length (line ++ [newline])) ->
  (forall pid, maxBytes (CloudLoggingHandler pid) = 134217728 /\
               backupCount (CloudLoggingHandler pid) = 3) /\
  emit_line h fs line =
    Fs.write (doRollover h fs) (baseFilename h) (line ++ [newline]) /\
  emit_line h fs line !! baseFilename h = Some (line ++ [newline]) /\
  emit_line h fs line !! backup h 1 = Some active /\
  (forall i c, 1 <= i < 3 -> fs !! backup h i = Some c ->
               emit_line h fs line !! backup h (i + 1) = Some c).
Proof.
  intros Hmax HK Hbase Hexceed.
  assert (Hroll : shouldRollover h fs line = true).
  { rewrite (shouldRollover_spec h fs line active Hbase).
    apply andb_true_iff. split; [apply Z.ltb_lt|apply Z.leb_le]; lia. }
  destruct (emit_line_rollover h fs line active HK Hbase Hroll)
    as [E [E0 [E1 [E2 [E3 _]]]]].
  split; [intros pid; split; reflexivity|].
  repeat split; try assumption.
  intros i c Hi Hc. assert (i = 1 \/ i = 2) as [-> | ->] by lia.
  - change (1 + 1) with 2. now rewrite E2.
  - change (2 + 1) with 3. now rewrite E3, Hc.
Qed.

Lemma C6_rollover_before_write_witness :
  (forall pid, maxBytes (CloudLoggingHandler pid) = 134217728 /\
               backupCount (CloudLoggingHandler pid) = 3) /\
  emit_line small_handler small_fs (lit "abcd") =
    Fs.write (doRollover small_handler small_fs) (baseFilename small_handler)
             (lit "abcd" ++ [newline]) /\
  emit_line small_handler small_fs (lit "abcd") !! baseFilename small_handler
    = Some (lit "abcd" ++ [newline]) /\
  emit_line small_handler small_fs (lit "abcd") !! backup small_handler 1
    = Some (lit "12345") /\
  (forall i c, 1 <= i < 3 -> small_fs !! backup small_handler i = Some c ->
               emit_line small_handler small_fs (lit "abcd")
                 !! backup small_handler (i + 1) = Some c).
Proof.
  apply (C6_rollover_before_write small_handler small_fs (lit "abcd") (lit "12345"));
    reflexivity.
Defined.

(** C7: after every sequence of writes of a handler that keeps three
    backups, started where no backup beyond the third exists, the active
    file exists, no backup beyond the third exists, and backup [i + 1]
    holds the [i]-th most recent of the files closed by a rollover; after
    three or more rollovers exactly the backups 1, 2 and 3 exist. *)
Theorem C7_backups_bounded (h : RotatingFileHandler) (fs : filesystem)
    (lines : list bytes) :
  backupCount h = LOG_FILE_COUNT ->
  is_Some (fs !! baseFilename h) ->
  (forall i, 3 < i -> fs !! backup h i = None) ->
  let fs' := emit_lines h fs lines in
  let closed := closed_files h fs lines [] in
  is_Some (fs' !! baseFilename h) /\
  (forall i, 1 <= i -> is_Some (fs' !! backup h i) -> i <= 3) /\
  (forall i : nat, (i < 3)%nat -> (i < length closed)%nat ->
                   fs' !! backup h (Z.of_nat i + 1) = closed !! i) /\
  ((3 <= length closed)%nat ->
   forall i, 1 <= i -> (is_Some (fs' !! backup h i) <-> i <= 3)).
Proof.
  intros HK Hbase Hbeyond fs' closed.
  assert (Hinv : rotation_inv h fs' closed).
  { apply rotation_inv_run; [exact HK|].
    split; [exact Hbase|]. split; [exact Hbeyond|].
    intros i _ Hlen. cbn [length] in Hlen. lia. }
  destruct Hinv as [Hb [Hbey Hgen]].
  assert (Hle : forall i, 1 <= i -> is_Some (fs' !! backup h i) -> i <= 3).
  { intros i Hi [c Hc]. destruct (Z_le_gt_dec i 3) as [|Hgt]; [assumption|].
    rewrite Hbey in Hc by lia. discriminate. }
  split; [exact Hb|]. split; [exact Hle|]. split; [exact Hgen|].
  intros Hlen i Hi. split; [now apply Hle|].
  intros Hi3.
  replace i with (Z.of_nat (Z.to_nat (i - 1)) + 1) by lia.
  rewrite Hgen by lia. apply lookup_lt_is_Some_2. lia.
Qed.

Lemma C7_backups_bounded_witness :
  let lines := [lit "abcd"; lit "efgh"; lit "ijkl"; lit "mnop"; lit "qrst"] in
  let fs' := emit_lines small_handler small_fs lines in
  let closed := closed_files small_handler small_fs lines [] in
  is_Some (fs' !! baseFilename small_handler) /\
  (forall i, 1 <= i -> is_Some (fs' !! backup small_handler i) -> i <= 3) /\
  (forall i : nat, (i < 3)%nat -> (i < length closed)%nat ->
                   fs' !! backup small_handler (Z.of_nat i + 1) = closed !! i) /\
  ((3 <= length closed)%nat ->
   forall i, 1 <= i -> (is_Some (fs' !! backup small_handler i) <-> i <= 3)).
Proof.
  apply (C7_backups_bounded small_handler small_fs);
    [reflexivity | eexists; reflexivity | ].
  intros i Hi. apply lookup_singleton_ne.
  apply not_eq_sym, (backup_ne_base small_handler i).
Defined.

End handler_claims.

(** * The bytes [json.dumps] emits *)

Module OutputFacts.
Import Json PathFacts.









End OutputFacts.

(** * Reading back what [json.dumps] wrote: strings and numbers *)

Module StringFacts.
Import Json Decoder PathFacts.







End StringFacts.

Module NumberFacts.
Import Json Decoder PathFacts.











End NumberFacts.

(** * Reading back what [json.dumps] wrote: values *)

Module RoundTrip.
Import Json Decoder PathFacts StringFacts NumberFacts.













End RoundTrip.

(** * Properties of the emitted line *)

Section line_claims.
Import Float Samples.





End line_claims.
(** * Facts about sequences of writes *)

Module RunFacts.
Import HandlerFacts.

Lemma elem_of_countdown (n : nat) (i : Z) :
  i ∈ countdown n <-> 1 <= i <= Z.of_nat n.
Proof.
  induction n as [|n IH]; cbn [countdown].
  - split; [intros H; now apply elem_of_nil in H|lia].
  - rewrite elem_of_cons, IH. lia.
Qed.

Lemma not_in_files_of (h : RotatingFileHandler) (p : string) :
  p ∉ files_of h ->
  p <> baseFilename h /\ forall i, 1 <= i <= backupCount h -> p <> backup h i.
Proof.
  unfold files_of. rewrite not_elem_of_cons. intros [Hb Hm].
  split; [exact Hb|]. intros i Hi ->. apply Hm.
  apply list_elem_of_In, in_map, list_elem_of_In, elem_of_countdown. lia.
Qed.

Lemma remove_if_lookup (fs : filesystem) (b q : string) :
  q <> b ->
  (if Fs.exists_ fs b then Fs.remove fs b else fs) !! q = fs !! q.
Proof.
  intros Hq. destruct (Fs.exists_ fs b); [|reflexivity].
  unfold Fs.remove. now rewrite lookup_delete_ne by congruence.
Qed.

Lemma rename_lookup_ne (fs : filesystem) (src dst p : string) :
  p <> src -> p <> dst -> Fs.rename fs src dst !! p = fs !! p.
Proof.
  intros Hs Hd. unfold Fs.rename. destruct (fs !! src); [|reflexivity].
  rewrite lookup_insert_ne by congruence. now rewrite lookup_delete_ne by congruence.
Qed.

Lemma open_append_lookup_ne (fs : filesystem) (path p : string) :
  p <> path -> Fs.open_append fs path !! p = fs !! p.
Proof.
  intros Hp. unfold Fs.open_append. destruct (fs !! path); [reflexivity|].
  now rewrite lookup_insert_ne by congruence.
Qed.

(** The loop of [doRollover] changes the backups it names and nothing
    else. *)
Lemma shifts_frame (h : RotatingFileHandler) (l : list Z) (p : string) :
  (forall i, i ∈ l -> p <> backup h i /\ p <> backup h (i + 1)) ->
  forall fs, foldl (shift h) fs l !! p = fs !! p.
Proof.
  induction l as [|i l IH]; intros Hl fs; [reflexivity|].
  cbn [foldl]. rewrite IH by (intros j Hj; apply Hl; now right).
  rewrite shift_lookup. destruct (Hl i ltac:(left)) as [H1 H2].
  destruct (fs !! backup h i); [|reflexivity].
  now rewrite !decide_False by assumption.
Qed.

Lemma doRollover_frame (h : RotatingFileHandler) (fs : filesystem) (p : string) :
  p ∉ files_of h -> doRollover h fs !! p = fs !! p.
Proof.
  intros Hp. apply not_in_files_of in Hp as [Hbase Hbackup].
  unfold doRollover. rewrite open_append_lookup_ne by assumption.
  destruct (Z.ltb_spec 0 (backupCount h)) as [HK|HK]; [|reflexivity].
  cbv zeta. change (baseFilename h +:+ ".1") with (backup h 1).
  set (fs2 := foldl (shift h) fs (countdown (Z.to_nat (backupCount h - 1)))).
  assert (H1 : p <> backup h 1) by (apply Hbackup; lia).
  assert (H2 : fs2 !! p = fs !! p).
  { apply shifts_frame. intros i Hi. apply elem_of_countdown in Hi.
    split; apply Hbackup; lia. }
  set (fs3 := if Fs.exists_ fs2 (backup h 1) then Fs.remove fs2 (backup h 1) else fs2).
  assert (H3 : fs3 !! p = fs !! p)
    by (subst fs3; now rewrite remove_if_lookup by assumption).
  destruct (Fs.exists_ fs3 (baseFilename h)); [|exact H3].
  now rewrite rename_lookup_ne by assumption.
Qed.

Lemma emit_line_frame (h : RotatingFileHandler) (fs : filesystem)
    (line : bytes) (p : string) :
  p ∉ files_of h -> emit_line h fs line !! p = fs !! p.
Proof.
  intros Hp. unfold emit_line. rewrite write_lookup.
  rewrite decide_False by (now apply not_in_files_of in Hp as [? _]).
  destruct (shouldRollover h fs line); [now apply doRollover_frame|reflexivity].
Qed.

Lemma emit_lines_frame (h : RotatingFileHandler) (lines : list bytes) (p : string) :
  p ∉ files_of h -> forall fs, emit_lines h fs lines !! p = fs !! p.
Proof.
  intros Hp. induction lines as [|line lines IH]; intros fs; [reflexivity|].
  cbn [emit_lines foldl]. fold (emit_lines h (emit_line h fs line) lines).
  rewrite IH. now apply emit_line_frame.
Qed.

(** The active file after a write. *)
Lemma emit_line_active (h : RotatingFileHandler) (fs : filesystem)
    (line active : bytes) :
  backupCount h = 3 ->
  fs !! baseFilename h = Some active ->
  emit_line h fs line !! baseFilename h =
  Some ((if shouldRollover h fs line then [] else active) ++ line ++ [newline]).
Proof.
  intros HK Hbase. destruct (shouldRollover h fs line) eqn:Hroll.
  - now destruct (emit_line_rollover h fs line active HK Hbase Hroll)
      as [_ [E0 _]].
  - now destruct (emit_line_append h fs line active Hbase Hroll) as [E0 _].
Qed.

Lemma written_cons (line : bytes) (lines : list bytes) :
  written (line :: lines) = line ++ [newline] ++ written lines.
Proof. unfold written. cbn [map concat]. now rewrite <- app_assoc. Qed.

Lemma written_app (l1 l2 : list bytes) :
  written (l1 ++ l2) = written l1 ++ written l2.
Proof. unfold written. now rewrite map_app, concat_app. Qed.

Lemma written_concat (groups : list (list bytes)) :
  written (concat groups) = concat (map written groups).
Proof.
  induction groups as [|g groups IH]; [reflexivity|].
  cbn [concat map]. now rewrite written_app, IH.
Qed.

(** The files closed by the rollovers of a run, oldest first, followed
    by the active file, are consecutive groups of the lines written, each
    in full. *)
Lemma history_partition (h : RotatingFileHandler) (lines : list bytes) :
  backupCount h = 3 ->
  forall fs closed active,
    fs !! baseFilename h = Some active ->
    exists group groups,
      concat (group :: groups) = lines /\
      rev (closed_files h fs lines closed)
        ++ [contents (emit_lines h fs lines) (baseFilename h)] =
      rev closed ++ (active ++ written group) :: map written groups.
Proof.
  intros HK. induction lines as [|line lines IH]; intros fs closed active Hbase.
  - exists [], []. split; [reflexivity|].
    cbn [closed_files emit_lines foldl map]. unfold contents. rewrite Hbase.
    cbn [default from_option id written map concat]. now rewrite app_nil_r.
  - cbn [closed_files emit_lines foldl].
    fold (emit_lines h (emit_line h fs line) lines).
    pose proof (emit_line_active h fs line active HK Hbase) as Hact.
    rewrite Hbase. cbn [default from_option id].
    destruct (shouldRollover h fs line).
    + destruct (IH _ (active :: closed) _ Hact) as [g [gs [Hcat Heq]]].
      exists [], ((line :: g) :: gs). split.
      * cbn [concat app] in *. now rewrite <- Hcat.
      * rewrite Heq. cbn [rev map app].
        change (written []) with (@nil ascii).
        rewrite app_nil_r, written_cons, <- !app_assoc. reflexivity.
    + destruct (IH _ closed _ Hact) as [g [gs [Hcat Heq]]].
      exists (line :: g), gs. split.
      * cbn [concat app] in *. now rewrite <- Hcat.
      * rewrite Heq. now rewrite written_cons, <- !app_assoc.
Qed.

Lemma backups_are_step (h : RotatingFileHandler) (fs : filesystem)
    (closed : list bytes) (line active : bytes) :
  backupCount h = 3 ->
  fs !! baseFilename h = Some active ->
  backups_are h fs closed ->
  backups_are h (emit_line h fs line)
    (if shouldRollover h fs line then active :: closed else closed).
Proof.
  intros HK Hbase Hgen. destruct (shouldRollover h fs line) eqn:Hroll.
  - destruct (emit_line_rollover h fs line active HK Hbase Hroll)
      as [_ [_ [E1 [E2 [E3 _]]]]].
    intros i Hi. destruct i as [|[|[|i]]]; [| | |lia].
    + exact E1.
    + change (Z.of_nat 1 + 1) with 2. rewrite E2. apply (Hgen 0%nat). lia.
    + change (Z.of_nat 2 + 1) with 3. rewrite E3.
      pose proof (Hgen 1%nat ltac:(lia)) as H1.
      pose proof (Hgen 2%nat ltac:(lia)) as H2.
      change (Z.of_nat 1 + 1) with 2 in H1. change (Z.of_nat 2 + 1) with 3 in H2.
      rewrite H1, H2. change ((active :: closed) !! 2%nat) with (closed !! 1%nat).
      destruct (closed !! 1%nat) eqn:E; [reflexivity|].
      apply lookup_ge_None in E. apply lookup_ge_None. lia.
  - destruct (emit_line_append h fs line active Hbase Hroll) as [_ Ep].
    intros i Hi. rewrite Ep by apply backup_ne_base. now apply Hgen.
Qed.

Lemma backups_are_run (h : RotatingFileHandler) (lines : list bytes) :
  backupCount h = 3 ->
  forall fs closed active,
    fs !! baseFilename h = Some active ->
    backups_are h fs closed ->
    backups_are h (emit_lines h fs lines) (closed_files h fs lines closed).
Proof.
  intros HK. induction lines as [|line lines IH]; intros fs closed active Hbase Hgen.
  - exact Hgen.
  - cbn [emit_lines foldl closed_files].
    fold (emit_lines h (emit_line h fs line) lines).
    pose proof (emit_line_active h fs line active HK Hbase) as Hact.
    apply (IH _ _ _ Hact). rewrite Hbase. cbn [default from_option id].
    now apply backups_are_step.
Qed.

(** The active file stays below the size limit as long as every line
    does. *)
Lemma below_limit_step (h : RotatingFileHandler) (fs : filesystem)
    (line active : bytes) :
  backupCount h = 3 ->
  0 < maxBytes h ->
  fs !! baseFilename h = Some active ->
  Z.of_nat (length line) + 1 < maxBytes h ->
  exists active',
    emit_line h fs line !! baseFilename h = Some active' /\
    Z.of_nat (length active') < maxBytes h.
Proof.
  intros HK Hmax Hbase Hline.
  pose proof (emit_line_active h fs line active HK Hbase) as Hact.
  eexists. split; [exact Hact|].
  rewrite (shouldRollover_spec h fs line active Hbase).
  rewrite !length_app. cbn [length].
  destruct (Z.ltb_spec 0 (maxBytes h)); [|lia]. cbn [andb].
  destruct (Z.leb_spec (maxBytes h)
              (Z.of_nat (length active) + Z.of_nat (length line + 1)));
    cbn [length]; lia.
Qed.

End RunFacts.

(** * Further properties of the timestamp *)

Section timestamp_extras.
Import Float FloatFacts Samples.

Lemma Qtrunc_nonpos (q : Q) : (q <= 0)%Q -> Qtrunc q = Qceiling q.
Proof.
  destruct q as [a b]. unfold Qle, Qtrunc, Qceiling, Qfloor, Qopp.
  cbn [Qnum Qden]. intros H.
  assert (Ha : a <= 0) by lia.
  replace a with (- - a) at 1 by lia.
  rewrite Z.quot_opp_l by lia. rewrite Z.quot_div_nonneg by lia. reflexivity.
Qed.

(** The payload carries the timestamp [timestamp_of] computes. *)
Lemma payload_timestamp (record : LogRecord) (env : environ) (seconds nanos : Z) :
  timestamp_of (created record) = Ok (seconds, nanos) ->
  exists payload,
    payload_of record env = Ok payload /\
    getitem payload (u "timestamp") = Some (timestamp_dict seconds nanos).
Proof.
  intros Hts. eexists. split; [apply payload_of_timestamp; exact Hts|reflexivity].
Qed.

(** X1: a creation time that is a NaN makes [format] raise [ValueError], an
    infinite one [OverflowError], whatever the other attributes and the
    environment are. *)
Theorem format_raises_on_non_finite (record : LogRecord) (env : environ) :
  is_finite (created record) = false ->
  format record env =
  Raise (match created record with
         | S754_nan => ValueError
         | _ => OverflowError
         end).
Proof.
  intros Hnf. unfold format, payload_of.
  destruct (created record) as [s|s| |s m e]; try discriminate; reflexivity.
Qed.

Lemma format_raises_on_non_finite_witness :
  format (record_at S754_nan) ∅ = Raise ValueError /\
  format (record_at (S754_infinity false)) ∅ = Raise OverflowError.
Proof.
  split.
  - apply (format_raises_on_non_finite (record_at S754_nan) ∅). reflexivity.
  - apply (format_raises_on_non_finite (record_at (S754_infinity false)) ∅).
    reflexivity.
Defined.

(** X2: for a creation time that is finite and not positive, [seconds] is
    the ceiling of the creation time and [nanos] lies between
    [-999999999] and [0]: the fraction is emitted with the sign of the
    timestamp. *)
Theorem nonpositive_timestamp (record : LogRecord) (env : environ) :
  valid (created record) = true ->
  is_finite (created record) = true ->
  (value (created record) <= 0)%Q ->
  exists payload seconds nanos,
    payload_of record env = Ok payload /\
    getitem payload (u "timestamp") = Some (timestamp_dict seconds nanos) /\
    seconds = Qceiling (value (created record)) /\
    seconds <= 0 /\ -999999999 <= nanos <= 0.
Proof.
  intros Hv Hf Hneg.
  destruct (timestamp_of_spec _ Hv Hf)
    as [seconds [nanos [Hts [Hs [_ [_ [_ Hn]]]]]]].
  destruct (payload_timestamp record env _ _ Hts) as [payload [Hp Hg]].
  exists payload, seconds, nanos. split; [exact Hp|]. split; [exact Hg|].
  rewrite (Qtrunc_nonpos _ Hneg) in Hs. split; [exact Hs|].
  split; [|now apply Hn].
  rewrite Hs. pose proof (Qceiling_lt (value (created record))) as Hlt.
  assert (Hc : (inject_Z (Qceiling (value (created record)) - 1) < 0)%Q)
    by (eapply Qlt_le_trans; eassumption).
  unfold Qlt in Hc. cbn [inject_Z Qnum Qden] in Hc. lia.
Qed.

Lemma nonpositive_timestamp_witness :
  exists payload seconds nanos,
    payload_of (record_at minus_one_and_a_half) ∅ = Ok payload /\
    getitem payload (u "timestamp") = Some (timestamp_dict seconds nanos) /\
    seconds = Qceiling (value minus_one_and_a_half) /\
    seconds <= 0 /\ -999999999 <= nanos <= 0.
Proof.
  apply (nonpositive_timestamp (record_at minus_one_and_a_half) ∅);
    [reflexivity | reflexivity | vm_compute; discriminate].
Defined.

(** The distance between a finite float and the timestamp computed for
    it, in units of [10^-9] seconds. *)
Lemma timestamp_error (x : spec_float) :
  valid x = true -> is_finite x = true ->
  exists seconds nanos,
    timestamp_of x = Ok (seconds, nanos) /\
    (Qabs (value x - Qmake (seconds * 10 ^ 9 + nanos) 1000000000)
     <= 1 # 1000000000)%Q.
Proof.
  intros Hv Hf. destruct x as [s|s| |s m e]; try discriminate.
  - exists 0, 0. split; [reflexivity|]. vm_compute. discriminate.
  - destruct (Z.leb_spec 0 e) as [He|He].
    + exists (signed s (Zpos m * 2 ^ e)), 0. split.
      { unfold timestamp_of, modf. destruct (Z.leb_spec 0 e); [|lia].
        cbn [to_int mul SFmul f1e9 mbind result_bind].
        destruct (Z.leb_spec 0 e); [reflexivity|lia]. }
      unfold value. destruct (Z.leb_spec 0 e); [|lia].
      unfold Qle, Qabs, Qminus, Qplus, Qopp. cbn [inject_Z Qnum Qden].
      set (z := signed s (Zpos m * 2 ^ e)).
      replace (z * Zpos 1000000000 + - (z * 10 ^ 9 + 0) * 1) with 0
        by (change (10 ^ 9) with (Zpos 1000000000); lia).
      cbn. lia.
    + destruct (timestamp_of_fractional s m e Hv He) as [n [Hts [Hor [Hb _]]]].
      exists (signed s (Zpos m / 2 ^ (- e))), (signed s n).
      split; [exact Hts|].
      assert (Hp : 0 < 2 ^ (- e)) by (apply Z.pow_pos_nonneg; lia).
      pose proof (Z.div_mod (Zpos m) (2 ^ (- e)) ltac:(lia)) as Hdm.
      pose proof (Z.mod_pos_bound (Zpos m) (2 ^ (- e)) Hp) as Hr.
      set (k := 2 ^ (- e)) in *.
      set (ip := Zpos m / k) in *. set (f := Zpos m mod k) in *.
      assert (HF : f * 10 ^ 9 / k * k <= f * 10 ^ 9 < (f * 10 ^ 9 / k + 1) * k).
      { pose proof (Z.div_mod (f * 10 ^ 9) k ltac:(lia)) as Hdm2.
        pose proof (Z.mod_pos_bound (f * 10 ^ 9) k Hp). lia. }
      set (F := f * 10 ^ 9 / k) in *.
      unfold value. destruct (Z.leb_spec 0 e); [lia|]. fold k.
      unfold Qle, Qabs, Qminus, Qplus, Qopp. cbn [Qnum Qden].
      rewrite Pos2Z.inj_mul, Z2Pos.id by assumption.
      change (Zpos 1000000000) with (10 ^ 9).
      replace (signed s (Zpos m) * 10 ^ 9
               + - (signed s ip * 10 ^ 9 + signed s n) * k)
        with (signed s (f * 10 ^ 9 - n * k))
        by (destruct s; unfold signed; nia).
      assert (Habs : Z.abs (signed s (f * 10 ^ 9 - n * k)) <= k)
        by (destruct s, Hor as [-> | ->]; unfold signed; nia).
      nia.
Qed.

(** X3: the emitted timestamp, read as [seconds + nanos / 10^9], is within
    one nanosecond of the creation time. *)
Theorem timestamp_within_a_nanosecond (record : LogRecord) (env : environ) :
  valid (created record) = true ->
  is_finite (created record) = true ->
  exists payload seconds nanos,
    payload_of record env = Ok payload /\
    getitem payload (u "timestamp") = Some (timestamp_dict seconds nanos) /\
    (Qabs (value (created record)
           - Qmake (seconds * 10 ^ 9 + nanos) 1000000000)
     <= 1 # 1000000000)%Q.
Proof.
  intros Hv Hf.
  destruct (timestamp_error _ Hv Hf) as [seconds [nanos [Hts Herr]]].
  destruct (payload_timestamp record env _ _ Hts) as [payload [Hp Hg]].
  exists payload, seconds, nanos. auto.
Qed.

Lemma timestamp_within_a_nanosecond_witness :
  exists payload seconds nanos,
    payload_of (record_at three_tenths) ∅ = Ok payload /\
    getitem payload (u "timestamp") = Some (timestamp_dict seconds nanos) /\
    (Qabs (value three_tenths - Qmake (seconds * 10 ^ 9 + nanos) 1000000000)
     <= 1 # 1000000000)%Q.
Proof.
  apply (timestamp_within_a_nanosecond (record_at three_tenths) ∅); reflexivity.
Defined.

(** X4: a finite creation time that is a whole number [z] of seconds is
    emitted as [seconds = z] and [nanos = 0]. *)
Theorem whole_seconds_timestamp (record : LogRecord) (env : environ) (z : Z) :
  valid (created record) = true ->
  is_finite (created record) = true ->
  (value (created record) == inject_Z z)%Q ->
  exists payload,
    payload_of record env = Ok payload /\
    getitem payload (u "timestamp") = Some (timestamp_dict z 0).
Proof.
  intros Hv Hf Hz. apply payload_timestamp.
  destruct (created record) as [s|s| |s m e]; try discriminate.
  - unfold value, Qeq in Hz. cbn [inject_Z Qnum Qden] in Hz.
    assert (z = 0) as -> by lia. reflexivity.
  - unfold value in Hz. destruct (Z.leb_spec 0 e) as [He|He].
    + unfold Qeq in Hz. cbn [inject_Z Qnum Qden] in Hz.
      assert (z = signed s (Zpos m * 2 ^ e)) as -> by lia.
      unfold timestamp_of, modf. destruct (Z.leb_spec 0 e); [|lia].
      cbn [to_int mul SFmul f1e9 mbind result_bind].
      destruct (Z.leb_spec 0 e); [reflexivity|lia].
    + destruct (timestamp_of_fractional s m e Hv He) as [n [Hts [_ [_ Hex]]]].
      assert (Hp : 0 < 2 ^ (- e)) by (apply Z.pow_pos_nonneg; lia).
      unfold Qeq in Hz. cbn [inject_Z Qnum Qden] in Hz.
      rewrite Z2Pos.id in Hz by assumption.
      assert (Hm : Zpos m = Z.abs z * 2 ^ (- e))
        by (destruct s; unfold signed in Hz; lia).
      assert (Hmod : Zpos m mod 2 ^ (- e) = 0)
        by (rewrite Hm; apply Z.mod_mul; lia).
      assert (Hdiv : Zpos m / 2 ^ (- e) = Z.abs z)
        by (rewrite Hm; apply Z.div_mul; lia).
      rewrite Hmod in Hex. cbn [Z.mul] in Hex.
      rewrite Z.div_0_l in Hex by lia.
      rewrite (Hex ltac:(reflexivity)), Hdiv, signed_0 in Hts.
      rewrite Hts. f_equal. f_equal.
      destruct s; unfold signed in *; nia.
Qed.

Lemma whole_seconds_timestamp_witness :
  exists payload,
    payload_of (record_at (S754_finite false 7130316800000000 (-22))) ∅
      = Ok payload /\
    getitem payload (u "timestamp") = Some (timestamp_dict 1700000000 0).
Proof.
  apply (whole_seconds_timestamp
           (record_at (S754_finite false 7130316800000000 (-22))) ∅ 1700000000);
    reflexivity.
Defined.

End timestamp_extras.

(** * Further properties of the trace id and of the line *)

Section trace_extras.
Import Float Samples.

(** [before sep s] is the prefix of [s] that ends at its first [sep]. *)
Lemma before_prefix (sep : N) (s : text) :
  exists rest,
    s = before sep s ++ rest /\ (sep ∉ before sep s) /\
    (rest = [] \/ exists rest', rest = sep :: rest').
Proof.
  induction s as [|c s [rest [Heq [Hnin Hrest]]]].
  - exists []. split; [reflexivity|]. split; [apply not_elem_of_nil|now left].
  - cbn [before]. destruct (N.eqb_spec c sep) as [->|Hne].
    + exists (sep :: s). split; [reflexivity|].
      split; [apply not_elem_of_nil|right; eauto].
    + exists rest. split; [cbn [app]; now rewrite <- Heq|].
      split; [|exact Hrest].
      intros Hin. apply elem_of_cons in Hin as [->|Hin]; [congruence|tauto].
Qed.

(** X5: without a truthy [trace_id] attribute, a [traceId] that is emitted
    is a non-empty string without [/]: the part of the header up to its
    end or its first [/]. *)
Theorem header_trace_id_shape (record : LogRecord) (env : environ) :
  valid (created record) = true ->
  is_finite (created record) = true ->
  truthy (default PyNone (trace_id record)) = false ->
  exists payload,
    payload_of record env = Ok payload /\
    forall v, getitem payload (u "traceId") = Some v ->
      exists id rest,
        v = PyStr id /\ id <> [] /\ (slash ∉ id) /\
        getenv env HTTP_X_CLOUD_TRACE_CONTEXT [] = id ++ rest /\
        (rest = [] \/ exists rest', rest = slash :: rest').
Proof.
  intros Hv Hf Hfalsy.
  destruct (payload_of_finite record env Hv Hf) as [seconds [nanos [_ Hp]]].
  eexists. split; [exact Hp|].
  assert (Hr : resolve_trace_id record env
               = PyStr (before slash (getenv env HTTP_X_CLOUD_TRACE_CONTEXT []))).
  { unfold resolve_trace_id. rewrite Hfalsy. cbn [negb]. now rewrite hd_split. }
  rewrite Hr. cbn [truthy].
  destruct (before_prefix slash (getenv env HTTP_X_CLOUD_TRACE_CONTEXT []))
    as [rest [Heq [Hnin Hrest]]].
  set (header := getenv env HTTP_X_CLOUD_TRACE_CONTEXT []) in *.
  set (prefix := before slash header) in *. clearbody prefix header.
  intros v Hget. case_bool_decide as Hnil; cbn [negb] in Hget.
  - rewrite app_nil_r in Hget. vm_compute in Hget. discriminate.
  - vm_compute in Hget. injection Hget as <-.
    exists prefix, rest. repeat split; assumption.
Qed.

Lemma header_trace_id_shape_witness :
  exists payload,
    payload_of (record_at recent) (with_header "abc123/options=1") = Ok payload /\
    forall v, getitem payload (u "traceId") = Some v ->
      exists id rest,
        v = PyStr id /\ id <> [] /\ (slash ∉ id) /\
        getenv (with_header "abc123/options=1") HTTP_X_CLOUD_TRACE_CONTEXT []
          = id ++ rest /\
        (rest = [] \/ exists rest', rest = slash :: rest').
Proof.
  apply (header_trace_id_shape (record_at recent) (with_header "abc123/options=1"));
    reflexivity.
Defined.

(** X6: with a truthy [trace_id] attribute the environment is not looked at:
    [format] gives the same result in every environment. *)
Theorem explicit_trace_id_ignores_environment
    (record : LogRecord) (env1 env2 : environ) (v : pyval) :
  trace_id record = Some v ->
  truthy v = true ->
  payload_of record env1 = payload_of record env2 /\
  format record env1 = format record env2.
Proof.
  intros Htid Htruthy.
  assert (Hr : forall env, resolve_trace_id record env = v).
  { intros env. unfold resolve_trace_id. rewrite Htid.
    cbn [default from_option id]. now rewrite Htruthy. }
  assert (Hp : payload_of record env1 = payload_of record env2)
    by (unfold payload_of; now rewrite !Hr).
  split; [exact Hp|]. unfold format. now rewrite Hp.
Qed.

Lemma explicit_trace_id_ignores_environment_witness :
  payload_of traced ∅ = payload_of traced (with_header "abc123/options=1") /\
  format traced ∅ = format traced (with_header "abc123/options=1").
Proof.
  apply (explicit_trace_id_ignores_environment traced ∅
           (with_header "abc123/options=1") (PyStr (u "f00d")));
    reflexivity.
Defined.

(** X7: no value of the header makes [format] fail: a record with a finite
    creation time, an encodable thread and level name and no truthy
    [trace_id] attribute gets a line in every environment. *)
Theorem header_never_fails (record : LogRecord) (env : environ) :
  valid (created record) = true ->
  is_finite (created record) = true ->
  serializable (thread record) = true ->
  serializable (levelname record) = true ->
  truthy (default PyNone (trace_id record)) = false ->
  exists line, format record env = Ok line.
Proof.
  intros Hv Hf Hthread Hlevel Hfalsy.
  destruct (payload_of_finite record env Hv Hf) as [seconds [nanos [_ Hp]]].
  assert (Hr : resolve_trace_id record env
               = PyStr (hd [] (split slash (getenv env HTTP_X_CLOUD_TRACE_CONTEXT []))))
    by (unfold resolve_trace_id; now rewrite Hfalsy).
  rewrite Hr in Hp. clear Hr.
  set (tid := hd [] (split slash (getenv env HTTP_X_CLOUD_TRACE_CONTEXT []))) in Hp.
  set (payload := _ ++ _) in Hp.
  assert (Hser : serializable (PyDict payload) = true).
  { rewrite JsonFacts.serializable_dict. subst payload.
    destruct (truthy (PyStr tid));
      cbn [app forallb snd serializable timestamp_dict andb];
      rewrite Hthread, Hlevel; reflexivity. }
  destruct (JsonFacts.dumps_total (PyDict payload)) as [Hok _].
  destruct (Hok Hser) as [line Hline].
  exists line. unfold format. rewrite Hp. exact Hline.
Qed.

Lemma header_never_fails_witness :
  exists line, format (record_at recent) (with_header "/////") = Ok line.
Proof.
  apply (header_never_fails (record_at recent) (with_header "/////"));
    reflexivity.
Defined.



End trace_extras.
(** * Further properties of the rotating sink *)

Section handler_extras.
Import Float Samples HandlerFacts RunFacts.

(** X9: the size test of a write: with a positive limit, the handler rolls
    over as soon as the active file with the line and its terminator
    would reach the limit (equality included); below the limit, or with a
    limit that is not positive, the line is appended and nothing else
    changes. *)
Theorem rollover_threshold (h : RotatingFileHandler) (fs : filesystem)
    (line active : bytes) :
  backupCount h = LOG_FILE_COUNT ->
  fs !! baseFilename h = Some active ->
  let total := Z.of_nat (length active) + Z.of_nat (length line) + 1 in
  (0 < maxBytes h <= total ->
   emit_line h fs line !! baseFilename h = Some (line ++ [newline]) /\
   emit_line h fs line !! backup h 1 = Some active) /\
  (maxBytes h <= 0 \/ total < maxBytes h ->
   emit_line h fs line = <[baseFilename h := active ++ line ++ [newline]]> fs).
Proof.
  intros HK Hbase total.
  pose proof (shouldRollover_spec h fs line active Hbase) as Hspec.
  rewrite length_app in Hspec. cbn [length] in Hspec.
  split.
  - intros Hroll.
    assert (Htrue : shouldRollover h fs line = true).
    { rewrite Hspec. apply andb_true_iff.
      split; [apply Z.ltb_lt|apply Z.leb_le]; lia. }
    now destruct (emit_line_rollover h fs line active HK Hbase Htrue)
      as [_ [E0 [E1 _]]].
  - intros Hkeep.
    assert (Hfalse : shouldRollover h fs line = false).
    { rewrite Hspec. apply andb_false_iff.
      destruct Hkeep; [left; apply Z.ltb_ge|right; apply Z.leb_gt]; lia. }
    unfold emit_line, Fs.write. now rewrite Hfalse, Hbase.
Qed.

Lemma rollover_threshold_witness :
  let total := Z.of_nat (length (lit "12345")) + Z.of_nat (length (lit "ab")) + 1 in
  (0 < maxBytes small_handler <= total ->
   emit_line small_handler small_fs (lit "ab") !! baseFilename small_handler
     = Some (lit "ab" ++ [newline]) /\
   emit_line small_handler small_fs (lit "ab") !! backup small_handler 1
     = Some (lit "12345")) /\
  (maxBytes small_handler <= 0 \/ total < maxBytes small_handler ->
   emit_line small_handler small_fs (lit "ab") =
     <[baseFilename small_handler := lit "12345" ++ lit "ab" ++ [newline]]> small_fs).
Proof.
  apply (rollover_threshold small_handler small_fs (lit "ab") (lit "12345"));
    reflexivity.
Defined.

(** X10: a handler changes no file but its own: whatever it writes, a file
    that is neither its active file nor one of its [backupCount] backups
    is left as it was, present or absent. *)
Theorem writes_stay_in_own_files (h : RotatingFileHandler) (fs : filesystem)
    (lines : list bytes) (p : string) :
  p ∉ files_of h ->
  emit_lines h fs lines !! p = fs !! p.
Proof. intros Hp. now apply emit_lines_frame. Qed.

Lemma writes_stay_in_own_files_witness :
  emit_lines small_handler small_fs [lit "abcd"; lit "efgh"; lit "ijkl"]
    !! "app.7.json.4" = small_fs !! "app.7.json.4".
Proof.
  apply (writes_stay_in_own_files small_handler small_fs
           [lit "abcd"; lit "efgh"; lit "ijkl"] "app.7.json.4").
  vm_compute. intros H.
  repeat (apply elem_of_cons in H as [H|H]; [discriminate H|]).
  now apply elem_of_nil in H.
Defined.

(** X11: the handlers of two processes do not disturb each other: from the
    creation of the handler of one process on, nothing it writes changes
    the active file or a backup of the other. *)
Theorem other_process_files_untouched (pid1 pid2 : Z) (fs : filesystem)
    (lines : list bytes) (p : string) :
  pid1 <> pid2 ->
  p ∈ files_of (CloudLoggingHandler pid2) ->
  emit_lines (fst (init pid1 fs)) (snd (init pid1 fs)) lines !! p = fs !! p.
Proof.
  intros Hne Hp. cbn [init fst snd].
  assert (Hnot : p ∉ files_of (CloudLoggingHandler pid1)).
  { intros H1.
    apply PathFacts.handler_file_shape in H1 as [r1 ->].
    apply PathFacts.handler_file_shape in Hp as [r2 H2].
    apply Hne. now apply (PathFacts.handler_file_pid pid1 pid2 r1 r2). }
  rewrite emit_lines_frame by exact Hnot.
  apply open_append_lookup_ne.
  apply not_in_files_of in Hnot as [Hbase _]. exact Hbase.
Qed.

Lemma other_process_files_untouched_witness :
  emit_lines (fst (init 4711 ∅)) (snd (init 4711 ∅)) [lit "abcd"]
    !! baseFilename (CloudLoggingHandler 4712)
  = (∅ : filesystem) !! baseFilename (CloudLoggingHandler 4712).
Proof.
  apply (other_process_files_untouched 4711 4712 ∅ [lit "abcd"]
           (baseFilename (CloudLoggingHandler 4712))).
  - discriminate.
  - unfold files_of. left.
Defined.

(** X12: no record is split, lost or written twice by a rollover: the files
    closed by the rollovers of a run, oldest first, followed by the active
    file, are consecutive groups of the lines of the run, each line in
    full with its terminator, after what the active file held at the
    start. *)
Theorem records_are_never_split (h : RotatingFileHandler) (fs : filesystem)
    (lines : list bytes) (active : bytes) :
  backupCount h = LOG_FILE_COUNT ->
  fs !! baseFilename h = Some active ->
  exists group groups,
    concat (group :: groups) = lines /\
    rev (closed_files h fs lines [])
      ++ [contents (emit_lines h fs lines) (baseFilename h)] =
    (active ++ written group) :: map written groups.
Proof.
  intros HK Hbase.
  exact (history_partition h lines HK fs [] active Hbase).
Qed.

Lemma records_are_never_split_witness :
  exists group groups,
    concat (group :: groups) = [lit "a"; lit "bcdefg"; lit "h"] /\
    rev (closed_files small_handler small_fs [lit "a"; lit "bcdefg"; lit "h"] [])
      ++ [contents (emit_lines small_handler small_fs
                      [lit "a"; lit "bcdefg"; lit "h"])
            (baseFilename small_handler)] =
    (lit "12345" ++ written group) :: map written groups.
Proof.
  apply (records_are_never_split small_handler small_fs
           [lit "a"; lit "bcdefg"; lit "h"] (lit "12345"));
    reflexivity.
Defined.

(** X13: nothing is lost before the fourth rollover: started without backups,
    and as long as a run has rolled over at most three times, the backups
    3, 2 and 1 and the active file, read in this order, hold what the
    active file held at the start followed by every line of the run with
    its terminator. *)
Theorem nothing_lost_within_three_rollovers (h : RotatingFileHandler)
    (fs : filesystem) (lines : list bytes) (active : bytes) :
  backupCount h = LOG_FILE_COUNT ->
  fs !! baseFilename h = Some active ->
  (forall i, 1 <= i <= 3 -> fs !! backup h i = None) ->
  (length (closed_files h fs lines []) <= 3)%nat ->
  let fs' := emit_lines h fs lines in
  contents fs' (backup h 3) ++ contents fs' (backup h 2)
    ++ contents fs' (backup h 1) ++ contents fs' (baseFilename h)
  = active ++ written lines.
Proof.
  intros HK Hbase Hnone Hlen fs'.
  destruct (history_partition h lines HK fs [] active Hbase)
    as [g [gs [Hcat Heq]]].
  assert (Hgen : backups_are h fs' (closed_files h fs lines [])).
  { apply (backups_are_run h lines HK fs [] active Hbase).
    intros i Hi. rewrite Hnone by lia. reflexivity. }
  pose proof (Hgen 0%nat ltac:(lia)) as H1.
  pose proof (Hgen 1%nat ltac:(lia)) as H2.
  pose proof (Hgen 2%nat ltac:(lia)) as H3.
  change (Z.of_nat 0 + 1) with 1 in H1. change (Z.of_nat 1 + 1) with 2 in H2.
  change (Z.of_nat 2 + 1) with 3 in H3.
  apply (f_equal (@concat ascii)) in Heq.
  rewrite concat_app in Heq. cbn [rev app concat] in Heq.
  rewrite app_nil_r, <- written_concat in Heq.
  change (g ++ concat gs) with (concat (g :: gs)) in Hcat.
  fold fs' in Heq.
  assert (Hall : active ++ written lines
                 = concat (rev (closed_files h fs lines []))
                   ++ contents fs' (baseFilename h)).
  { rewrite Heq, <- Hcat. cbn [concat]. now rewrite written_app, app_assoc. }
  rewrite Hall. unfold contents at 1 2 3. rewrite H1, H2, H3.
  destruct (closed_files h fs lines []) as [|c1 [|c2 [|c3 [|c4 rest]]]];
    cbn [length] in Hlen; [| | | |lia];
    cbn [lookup list_lookup default from_option id rev app concat];
    rewrite ?app_nil_r, <- ?app_assoc; reflexivity.
Qed.

Lemma nothing_lost_within_three_rollovers_witness :
  let lines := [lit "abcd"; lit "ef"; lit "ij"; lit "k"] in
  let fs' := emit_lines small_handler small_fs lines in
  contents fs' (backup small_handler 3) ++ contents fs' (backup small_handler 2)
    ++ contents fs' (backup small_handler 1)
    ++ contents fs' (baseFilename small_handler)
  = lit "12345" ++ written lines.
Proof.
  apply (nothing_lost_within_three_rollovers small_handler small_fs
           [lit "abcd"; lit "ef"; lit "ij"; lit "k"] (lit "12345"));
    [reflexivity | reflexivity | | vm_compute; lia].
  intros i Hi. apply lookup_singleton_ne.
  apply not_eq_sym, (backup_ne_base small_handler i).
Defined.

(** X14: as long as every line with its terminator is shorter than the
    limit, the active file is shorter than the limit after every run. *)
Theorem active_file_stays_below_limit (h : RotatingFileHandler)
    (fs : filesystem) (lines : list bytes) (active : bytes) :
  backupCount h = LOG_FILE_COUNT ->
  0 < maxBytes h ->
  fs !! baseFilename h = Some active ->
  Z.of_nat (length active) < maxBytes h ->
  Forall (fun line => Z.of_nat (length line) + 1 < maxBytes h) lines ->
  is_Some (emit_lines h fs lines !! baseFilename h) /\
  Fs.size (emit_lines h fs lines) (baseFilename h) < maxBytes h.
Proof.
  intros HK Hmax Hbase Hsmall Hlines. revert fs active Hbase Hsmall.
  induction Hlines as [|line lines Hline _ IH]; intros fs active Hbase Hsmall.
  - cbn [emit_lines foldl]. unfold Fs.size. rewrite Hbase. split; [eauto|exact Hsmall].
  - cbn [emit_lines foldl]. fold (emit_lines h (emit_line h fs line) lines).
    destruct (below_limit_step h fs line active HK Hmax Hbase Hline)
      as [active' [Hact Hlt]].
    exact (IH _ _ Hact Hlt).
Qed.

Lemma active_file_stays_below_limit_witness :
  is_Some (emit_lines small_handler small_fs
             [lit "abcd"; lit "efgh"; lit "ij"; lit "klmnop"]
           !! baseFilename small_handler) /\
  Fs.size (emit_lines small_handler small_fs
             [lit "abcd"; lit "efgh"; lit "ij"; lit "klmnop"])
          (baseFilename small_handler) < maxBytes small_handler.
Proof.
  apply (active_file_stays_below_limit small_handler small_fs
           [lit "abcd"; lit "efgh"; lit "ij"; lit "klmnop"] (lit "12345"));
    [reflexivity | reflexivity | reflexivity | reflexivity |].
  repeat (apply List.Forall_cons; [reflexivity|]). apply List.Forall_nil.
Defined.



(** X16: a record that cannot be encoded is dropped: when the thread, the
    level name or the emitted trace id has no JSON encoding, [emit]
    changes no file, the active file included. *)
Theorem unencodable_record_is_dropped (h : RotatingFileHandler) (env : environ)
    (fs : filesystem) (record : LogRecord) :
  valid (created record) = true ->
  is_finite (created record) = true ->
  serializable (thread record) && serializable (levelname record)
    && (negb (truthy (resolve_trace_id record env))
        || serializable (resolve_trace_id record env)) = false ->
  emit h env fs record = fs.
Proof.
  intros Hv Hf Hbad.
  destruct (payload_of_finite record env Hv Hf) as [seconds [nanos [_ Hp]]].
  set (payload := _ ++ _) in Hp.
  assert (Hser : serializable (PyDict payload) = false).
  { rewrite JsonFacts.serializable_dict. subst payload.
    destruct (truthy (resolve_trace_id record env));
      cbn [app forallb snd serializable timestamp_dict andb negb orb] in *;
      destruct (serializable (thread record)),
               (serializable (levelname record)); cbn [andb] in *;
      try reflexivity; try discriminate; now rewrite Hbad. }
  destruct (JsonFacts.dumps_total (PyDict payload)) as [_ Hraise].
  unfold emit, format. rewrite Hp. cbn [mbind result_bind].
  now rewrite (Hraise Hser).
Qed.

Lemma unencodable_record_is_dropped_witness :
  emit small_handler ∅ small_fs with_thread_object = small_fs.
Proof.
  apply (unencodable_record_is_dropped small_handler ∅ small_fs with_thread_object);
    reflexivity.
Defined.

End handler_extras.
